(** * Presence relay server (server.js): a shallow embedding and its properties

    The server keeps an in-memory [Map] from room to the [Set] of client
    identifiers, mirrors the size of each set into MongoDB, relays [chat] and
    [presence_update] frames to the sockets bound to the sender's room, and
    broadcasts [presence_count] to every open socket.

    Modelling decisions, all taken from the source:
    - a JavaScript value that the handlers test with [!v], [a || b] or [===],
      or use as a [Map]/[Set] key, is a [Value]; objects and arrays are
      represented by their identity, which is all that [===] and the
      collections look at;
    - the [rooms] map is a [gmap], each member [Set] a [gset];
    - [ws] objects live in a heap [sockets], so that the closure of a handler,
      [wss.clients] and a suspended continuation alias the same object;
    - every call that reaches the outside ([send], [updateOne], [ping],
      [terminate], [console.warn]) is recorded as an [Effect]; an effect is
      the call, not its delivery, and [send] on an open socket is taken not
      to throw;
    - [await persistCount(..)] suspends the handler: the code before it and the
      code after it are two separate transitions, and other events may run
      between them;
    - what the [ws] package does around the handlers (a new socket is [OPEN]
      and in [wss.clients]; a closing socket is [CLOSED] and out of
      [wss.clients] when ['close'] is emitted; [terminate] leads to ['close'])
      is modelled after the package, which is not part of the repository. *)

From Stdlib Require Import QArith Qcanon.
From stdpp Require Import base numbers gmap strings list fin_maps fin_sets.
From stdpp Require Import ssreflect.

#[local] Set Warnings "-rewrite-rw,-clear-no-such-hyp".

(** ** JavaScript values *)

Module Js.

(** A JSON number is modelled by its exact rational value: [JSON.parse] yields
    finite doubles only, [-0] and [0] are identified by [===] and by the
    SameValueZero comparison of [Map] and [Set], and both are falsy. *)
Inductive Value :=
  | VUndefined
  | VNull
  | VBool (b : bool)
  | VNum (q : Qc)
  | VStr (s : string)
  | VObject (ref : nat).

#[global] Instance Value_eq_dec : EqDecision Value.
Proof. solve_decision. Defined.

#[global] Instance Value_countable : Countable Value.
Proof.
  refine (inj_countable'
    (λ v, match v with
          | VUndefined => inl (inl false)
          | VNull => inl (inl true)
          | VBool b => inl (inr b)
          | VNum q => inr (inl q)
          | VStr s => inr (inr (inl s))
          | VObject r => inr (inr (inr r))
          end)
    (λ e, match e with
          | inl (inl false) => VUndefined
          | inl (inl true) => VNull
          | inl (inr b) => VBool b
          | inr (inl q) => VNum q
          | inr (inr (inl s)) => VStr s
          | inr (inr (inr r)) => VObject r
          end) _).
  by intros [].
Defined.

(** [ToBoolean]: what [!v], [a && b] and [a || b] look at. *)
Definition truthy (v : Value) : bool :=
  match v with
  | VUndefined | VNull => false
  | VBool b => b
  | VNum q => negb (bool_decide (q = 0%Qc))
  | VStr s => negb (bool_decide (s = ""))
  | VObject _ => true
  end.

(** [a || b] *)
Definition or_else (a b : Value) : Value := if truthy a then a else b.

(** [a === b] *)
Definition strict_eq (a b : Value) : bool := bool_decide (a = b).

(** The result of [JSON.parse(msg)] when it does not throw. Only a plain
    object has the named fields the handler reads; on any other truthy result
    [data.type] is [undefined]. *)
Inductive Data :=
  | Primitive (v : Value)
  | Array
  | Object (fields : gmap string Value).

Definition data_truthy (d : Data) : bool :=
  match d with
  | Primitive v => truthy v
  | Array | Object _ => true
  end.

(** [data.k] *)
Definition get (d : Data) (k : string) : Value :=
  match d with
  | Object fields => default VUndefined (fields !! k)
  | _ => VUndefined
  end.

End Js.

Import Js.

(** A raw frame [msg], seen through [JSON.parse]: [None] when it throws. *)
Definition Frame := option Data.

(** ** Sockets and server state *)

Inductive ReadyState := CONNECTING | OPEN | CLOSING | CLOSED.

#[global] Instance ReadyState_eq_dec : EqDecision ReadyState.
Proof. solve_decision. Defined.

(** The fields of a [ws] object that server.js reads or writes. *)
Record Socket := mkSocket {
  readyState : ReadyState;
  isAlive : bool;
  _room : Value;
  _clientId : Value
}.

#[global] Instance Socket_eq_dec : EqDecision Socket.
Proof. solve_decision. Defined.

Definition SocketId := nat.

Record Server := mkServer {
  mongoColl : bool;                      (* [false] is [null] *)
  rooms : gmap Value (gset Value);       (* [const rooms = new Map()] *)
  sockets : gmap SocketId Socket;        (* the [ws] objects *)
  clients : list SocketId                (* [wss.clients], in insertion order *)
}.

Definition set_mongoColl (b : bool) (st : Server) : Server :=
  mkServer b (rooms st) (sockets st) (clients st).
Definition set_rooms (rs : gmap Value (gset Value)) (st : Server) : Server :=
  mkServer (mongoColl st) rs (sockets st) (clients st).
Definition set_sockets (ss : gmap SocketId Socket) (st : Server) : Server :=
  mkServer (mongoColl st) (rooms st) ss (clients st).
Definition set_clients (cs : list SocketId) (st : Server) : Server :=
  mkServer (mongoColl st) (rooms st) (sockets st) cs.

(** Field reads on a [ws] object. *)
Definition room_of (st : Server) (ws : SocketId) : Value :=
  from_option _room VUndefined (sockets st !! ws).
Definition clientId_of (st : Server) (ws : SocketId) : Value :=
  from_option _clientId VUndefined (sockets st !! ws).
Definition is_open (st : Server) (ws : SocketId) : bool :=
  from_option (λ s, bool_decide (readyState s = OPEN)) false (sockets st !! ws).

(** Field writes on a [ws] object. *)
Definition bind (room clientId : Value) (s : Socket) : Socket :=
  mkSocket (readyState s) (isAlive s) room clientId.
Definition set_isAlive (b : bool) (s : Socket) : Socket :=
  mkSocket (readyState s) b (_room s) (_clientId s).
Definition set_readyState (r : ReadyState) (s : Socket) : Socket :=
  mkSocket r (isAlive s) (_room s) (_clientId s).

(** ** Payloads and effects *)

(** [data.presence || {}]: the relayed value, or the fresh empty object. *)
Inductive Presence := Relayed (v : Value) | EmptyObject.

(** The argument of [JSON.stringify] at each [send]. *)
Inductive Payload :=
  | PresenceCount (room : Value) (count : nat)
  | Pong
  | PresenceUpdate (clientId : Value) (presence : Presence) (room : Value)
  | Chat (clientId username message room : Value).

Inductive Effect :=
  | Send (ws : SocketId) (payload : Payload)      (* [ws.send(JSON.stringify(payload))] *)
  | UpdateOne (room : Value) (count : nat)        (* [mongoColl.updateOne({room}, {$set: {room, count, ..}}, {upsert: true})] *)
  | ConsoleWarn                                   (* [console.warn('Failed to persist presence count', e)] *)
  | Ping (ws : SocketId)                          (* [ws.ping()] *)
  | Terminate (ws : SocketId).                    (* [ws.terminate()] *)

#[global] Instance Presence_eq_dec : EqDecision Presence.
Proof. solve_decision. Defined.
#[global] Instance Payload_eq_dec : EqDecision Payload.
Proof. solve_decision. Defined.
#[global] Instance Effect_eq_dec : EqDecision Effect.
Proof. solve_decision. Defined.

(** ** Room registry *)

(** [(rooms.get(room) || new Set())] *)
Definition members (rs : gmap Value (gset Value)) (room : Value) : gset Value :=
  default ∅ (rs !! room).

(** [(rooms.get(room) || new Set()).size] *)
Definition count (rs : gmap Value (gset Value)) (room : Value) : nat :=
  size (members rs room).

(** [ensureRoom(room)]: the map after the call; the returned set is the one
    stored under [room]. *)
Definition ensureRoom (room : Value) (rs : gmap Value (gset Value))
  : gmap Value (gset Value) :=
  match rs !! room with
  | Some _ => rs
  | None => <[room := ∅]> rs
  end.

(** [ensureRoom(room).add(clientId)]: [add] mutates the set held by the map. *)
Definition addMember (room clientId : Value) (rs : gmap Value (gset Value))
  : gmap Value (gset Value) :=
  alter (λ set, {[clientId]} ∪ set) room (ensureRoom room rs).

(** [ensureRoom(room).delete(clientId)] *)
Definition removeMember (room clientId : Value) (rs : gmap Value (gset Value))
  : gmap Value (gset Value) :=
  alter (λ set, set ∖ {[clientId]}) room (ensureRoom room rs).

(** ** Presence store *)

(** How the promise of [mongoColl.updateOne] settles. *)
Inductive WriteOutcome := Fulfilled | Rejected.

(** [persistCount(room)] up to its [await]: with no collection it returns at
    once, otherwise it reads the size of the room's set and issues the
    upsert. *)
Definition persistCount (room : Value) (st : Server) : list Effect :=
  if mongoColl st then [UpdateOne room (count (rooms st) room)] else [].

(** The rest of [persistCount]: the [catch] block logs a failed write and
    returns normally. [inflight] tells whether an [updateOne] was issued. *)
Definition persistCount_settle (inflight : bool) (o : WriteOutcome) : list Effect :=
  if inflight then
    match o with
    | Rejected => [ConsoleWarn]
    | Fulfilled => []
    end
  else [].

(** ** Broadcast and fan-out *)

(** [wss.clients.forEach(c => { if (c.readyState === WebSocket.OPEN) c.send(payload) })] *)
Definition broadcastRoomCount (room : Value) (st : Server) : list Effect :=
  let payload := PresenceCount room (count (rooms st) room) in
  (λ c, Send c payload) <$> filter (λ c, is_open st c = true) (clients st).

(** [wss.clients.forEach(c => { if (c.readyState === WebSocket.OPEN && c._room === roomName) c.send(payload) })] *)
Definition relay (roomName : Value) (payload : Payload) (st : Server) : list Effect :=
  (λ c, Send c payload) <$>
    filter (λ c, is_open st c && strict_eq (room_of st c) roomName = true) (clients st).

(** [ws._room || data.room || 'global'] *)
Definition roomName (st : Server) (ws : SocketId) (data : Data) : Value :=
  or_else (or_else (room_of st ws) (get data "room")) (VStr "global").

(** ** Handlers *)

(** What remains of a handler after [await persistCount(..)]. *)
Inductive Continuation :=
  | AfterJoin (ws : SocketId) (room clientId : Value)
      (* [broadcastRoomCount(data.room); ws._room = data.room; ws._clientId = data.clientId] *)
  | AfterLeave (room : Value)   (* [broadcastRoomCount(data.room)] *)
  | AfterClose (room : Value).  (* [broadcastRoomCount(room)] *)

Record Suspended := mkSuspended {
  inflight : bool;              (* an [updateOne] was issued by [persistCount] *)
  continuation : Continuation
}.

Definition suspend (st : Server) (k : Continuation) : option Suspended :=
  Some (mkSuspended (mongoColl st) k).

(** [ws.on('message', async (msg) => ..)], up to the first [await]. *)
Definition on_message (ws : SocketId) (msg : Frame) (st : Server)
  : Server * list Effect * option Suspended :=
  match msg with
  | None => (st, [], None)
  | Some data =>
    let type := get data "type" in
    let room := get data "room" in
    let clientId := get data "clientId" in
    if negb (data_truthy data) || negb (truthy type) then (st, [], None)
    else if strict_eq type (VStr "join") && truthy room && truthy clientId then
      let st' := set_rooms (addMember room clientId (rooms st)) st in
      (st', persistCount room st', suspend st' (AfterJoin ws room clientId))
    else if strict_eq type (VStr "leave") && truthy room && truthy clientId then
      let st' := set_rooms (removeMember room clientId (rooms st)) st in
      (st', persistCount room st', suspend st' (AfterLeave room))
    else if strict_eq type (VStr "ping") then
      (st, [Send ws Pong], None)
    else if strict_eq type (VStr "presence_update") && truthy clientId then
      let presence :=
        if truthy (get data "presence") then Relayed (get data "presence")
        else EmptyObject in
      let rn := roomName st ws data in
      (st, relay rn (PresenceUpdate clientId presence rn) st, None)
    else if strict_eq type (VStr "chat") && truthy clientId then
      let rn := roomName st ws data in
      let payload :=
        Chat clientId (or_else (get data "username") (VStr "Player"))
             (or_else (get data "message") (VStr "")) rn in
      (st, relay rn payload st, None)
    else (st, [], None)
  end.

(** [ws.on('close', async () => ..)], up to the [await]. *)
Definition on_close (ws : SocketId) (st : Server)
  : Server * list Effect * option Suspended :=
  let room := room_of st ws in
  let cid := clientId_of st ws in
  if truthy room && truthy cid then
    let st' := set_rooms (removeMember room cid (rooms st)) st in
    (st', persistCount room st', suspend st' (AfterClose room))
  else (st, [], None).

(** A suspended handler runs on once the write has settled. *)
Definition resume (k : Suspended) (o : WriteOutcome) (st : Server)
  : Server * list Effect :=
  let log := persistCount_settle (inflight k) o in
  match continuation k with
  | AfterJoin ws room clientId =>
      (set_sockets (alter (bind room clientId) ws (sockets st)) st,
       log ++ broadcastRoomCount room st)
  | AfterLeave room => (st, log ++ broadcastRoomCount room st)
  | AfterClose room => (st, log ++ broadcastRoomCount room st)
  end.

(** A handler that is not interleaved with any other event: its [await]
    settles with [o] before the next event is taken. *)
Definition run (r : Server * list Effect * option Suspended) (o : WriteOutcome)
  : Server * list Effect :=
  match r with
  | (st, effs, None) => (st, effs)
  | (st, effs, Some k) => let '(st', effs') := resume k o st in (st', effs ++ effs')
  end.

Definition handle_message (ws : SocketId) (msg : Frame) (o : WriteOutcome)
    (st : Server) : Server * list Effect :=
  run (on_message ws msg st) o.

Definition handle_close (ws : SocketId) (o : WriteOutcome) (st : Server)
  : Server * list Effect :=
  run (on_close ws st) o.

(** ** The [ws] package and the timer *)

(** [wss.on('connection', ws => ..)]: the package has created the socket in
    state [OPEN] and added it to [wss.clients]; the handler sets [isAlive]. *)
Definition on_connection (ws : SocketId) (st : Server) : Server :=
  match sockets st !! ws with
  | Some _ => st
  | None =>
      set_clients (clients st ++ [ws])
        (set_sockets (<[ws := mkSocket OPEN true VUndefined VUndefined]> (sockets st)) st)
  end.

(** [ws.on('pong', () => ws.isAlive = true)] *)
Definition on_pong (ws : SocketId) (st : Server) : Server :=
  set_sockets (alter (set_isAlive true) ws (sockets st)) st.

(** Before it emits ['close'] the package marks the socket [CLOSED] and
    removes it from [wss.clients]. *)
Definition closed (ws : SocketId) (st : Server) : Server :=
  set_clients (filter (λ c, c ≠ ws) (clients st))
    (set_sockets (alter (set_readyState CLOSED) ws (sockets st)) st).

(** One iteration of the health ping: [ws.terminate()] moves the socket to
    [CLOSING] and destroys the transport, whose ['close'] event follows. *)
Definition sweep_one (acc : Server * list Effect) (ws : SocketId)
  : Server * list Effect :=
  let '(st, effs) := acc in
  match sockets st !! ws with
  | None => (st, effs)
  | Some s =>
      if negb (isAlive s) then
        (set_sockets (<[ws := set_readyState CLOSING s]> (sockets st)) st,
         effs ++ [Terminate ws])
      else
        (set_sockets (<[ws := set_isAlive false s]> (sockets st)) st,
         effs ++ [Ping ws])
  end.

(** [setInterval(() => wss.clients.forEach(..), 30000)] *)
Definition sweep (st : Server) : Server * list Effect :=
  foldl sweep_one (st, []) (clients st).

(** ** The event loop *)

Inductive Event :=
  | Connection (ws : SocketId)
  | Message (ws : SocketId) (msg : Frame)
  | Settle (i : nat) (o : WriteOutcome)   (* the [i]-th suspended handler resumes *)
  | PongFrame (ws : SocketId)
  | Close (ws : SocketId)
  | Sweep
  | MongoReady                            (* [initMongo] reached [mongoColl = db.collection(..)] *)
  | MongoFailed.                          (* [initMongo] reached [mongoColl = null] *)

Record Config := mkConfig {
  server : Server;
  suspended : list Suspended
}.

Definition park (cfg_suspended : list Suspended) (k : option Suspended)
  : list Suspended :=
  match k with
  | Some k => cfg_suspended ++ [k]
  | None => cfg_suspended
  end.

Definition step (cfg : Config) (ev : Event) : Config * list Effect :=
  match ev with
  | Connection ws => (mkConfig (on_connection ws (server cfg)) (suspended cfg), [])
  | Message ws msg =>
      let '(st, effs, k) := on_message ws msg (server cfg) in
      (mkConfig st (park (suspended cfg) k), effs)
  | Settle i o =>
      match suspended cfg !! i with
      | Some k =>
          let '(st, effs) := resume k o (server cfg) in
          (mkConfig st (delete i (suspended cfg)), effs)
      | None => (cfg, [])
      end
  | PongFrame ws => (mkConfig (on_pong ws (server cfg)) (suspended cfg), [])
  | Close ws =>
      let '(st, effs, k) := on_close ws (closed ws (server cfg)) in
      (mkConfig st (park (suspended cfg) k), effs)
  | Sweep =>
      let '(st, effs) := sweep (server cfg) in
      (mkConfig st (suspended cfg), effs)
  | MongoReady => (mkConfig (set_mongoColl true (server cfg)) (suspended cfg), [])
  | MongoFailed => (mkConfig (set_mongoColl false (server cfg)) (suspended cfg), [])
  end.

(** Running a sequence of events from a configuration, collecting effects. *)
Fixpoint steps (cfg : Config) (evs : list Event) : Config * list Effect :=
  match evs with
  | [] => (cfg, [])
  | ev :: evs =>
      let '(cfg1, e1) := step cfg ev in
      let '(cfg2, e2) := steps cfg1 evs in
      (cfg2, e1 ++ e2)
  end.

(** The process at start-up: [mongoColl = null], no room, no socket. *)
Definition initial : Config := mkConfig (mkServer false ∅ ∅ []) [].

Definition reachable (cfg : Config) : Prop :=
  ∃ evs, (steps initial evs).1 = cfg.

(** ** Vocabulary of the statements *)

Definition is_Send (e : Effect) : bool :=
  match e with
  | Send _ _ => true
  | _ => false
  end.

(** The [send] calls among the effects of a transition, in order. *)
Definition sends (effs : list Effect) : list Effect :=
  filter (λ e, is_Send e = true) effs.

(** A count that leaves the process, in a [presence_count] payload or in an
    upsert, is the size of the room's member set in [rs]. *)
Definition count_from_set (rs : gmap Value (gset Value)) (e : Effect) : Prop :=
  match e with
  | Send _ (PresenceCount room n) => n = size (members rs room)
  | UpdateOne room n => n = size (members rs room)
  | _ => True
  end.


(** A socket that missed a heartbeat and is bound to [(room, clientId)]. *)
Definition dead (st : Server) (ws : SocketId) (room clientId : Value) : Prop :=
  ∃ s, sockets st !! ws = Some s ∧ isAlive s = false
       ∧ _room s = room ∧ _clientId s = clientId.

(** The open sockets of [wss.clients], in iteration order. *)
Definition open_clients (st : Server) : list SocketId :=
  filter (λ c, is_open st c = true) (clients st).

(** The object a [chat] or [presence_update] handler stringifies. *)
Definition relayed (st : Server) (ws : SocketId) (data : Data) : Payload :=
  if strict_eq (get data "type") (VStr "chat") then
    Chat (get data "clientId") (or_else (get data "username") (VStr "Player"))
         (or_else (get data "message") (VStr "")) (roomName st ws data)
  else
    PresenceUpdate (get data "clientId")
      (if truthy (get data "presence") then Relayed (get data "presence")
       else EmptyObject)
      (roomName st ws data).

(** Frames as the game client builds them. *)
Definition frame (fields : list (string * Value)) : Frame :=
  Some (Object (list_to_map fields)).

Definition join_frame (room clientId : Value) : Frame :=
  frame [("type", VStr "join"); ("room", room); ("clientId", clientId)].

Definition leave_frame (room clientId : Value) : Frame :=
  frame [("type", VStr "leave"); ("room", room); ("clientId", clientId)].

(** The frames the handler leaves without any effect: [JSON.parse] throws,
    [type] is missing or falsy, [type] is none of the five known strings, a
    [join] or [leave] has a missing or falsy [room] or [clientId], or a
    [chat] or [presence_update] has a missing or falsy [clientId]. *)
Definition dropped (msg : Frame) : Prop :=
  match msg with
  | None => True
  | Some data =>
      let type := get data "type" in
      truthy type = false
      ∨ type ∉ [VStr "join"; VStr "leave"; VStr "ping";
                 VStr "presence_update"; VStr "chat"]
      ∨ ((type = VStr "join" ∨ type = VStr "leave")
         ∧ (truthy (get data "room") = false ∨ truthy (get data "clientId") = false))
      ∨ ((type = VStr "chat" ∨ type = VStr "presence_update")
         ∧ truthy (get data "clientId") = false)
  end.

(** ** Scenarios

    Configurations reached from [initial] by the frames of the game client;
    every handler resumes before the next event. *)

Definition lobby : Value := VStr "lobby".
Definition arena : Value := VStr "arena".
Definition global : Value := VStr "global".

(** X is socket 1, Y socket 2, Z socket 3; none has joined. *)
Definition connecting : list Event := [Connection 1; Connection 2; Connection 3].
Definition connected : Config := (steps initial connecting).1.

(** X and Y joined "lobby", Z joined "arena". *)
Definition lobby_and_arena_events : list Event :=
  connecting ++
  [Message 1 (join_frame lobby (VStr "x1")); Settle 0 Fulfilled;
   Message 2 (join_frame lobby (VStr "y1")); Settle 0 Fulfilled;
   Message 3 (join_frame arena (VStr "z1")); Settle 0 Fulfilled].
Definition lobby_and_arena : Config := (steps initial lobby_and_arena_events).1.

(** Only Z joined, and it joined "global". *)
Definition only_global_events : list Event :=
  connecting ++
  [Message 3 (join_frame global (VStr "z1")); Settle 0 Fulfilled].
Definition only_global : Config := (steps initial only_global_events).1.

(** X joined "lobby" and then left it with an explicit [leave]. *)
Definition joined_then_left_events : list Event :=
  connecting ++
  [Message 1 (join_frame lobby (VStr "x1")); Settle 0 Fulfilled;
   Message 1 (leave_frame lobby (VStr "x1")); Settle 0 Fulfilled].
Definition joined_then_left : Config := (steps initial joined_then_left_events).1.


(** The payloads of scenario B. *)
Definition chat_hi : Data :=
  Object (list_to_map [("type", VStr "chat"); ("clientId", VStr "x1");
                       ("username", VStr "Amy"); ("message", VStr "hi")]).

(** A [chat] frame that has no [message] (and no [room]). *)
Definition chat_no_message : Data :=
  Object (list_to_map [("type", VStr "chat"); ("clientId", VStr "x1")]).

(** ** Vocabulary of the further properties *)

(** What one pass of the health ping does with a socket of [wss.clients]:
    [ping] if [isAlive] is set, [terminate] if it is not. *)
Definition heartbeat (st : Server) (ws : SocketId) : list Effect :=
  match sockets st !! ws with
  | None => []
  | Some s => if isAlive s then [Ping ws] else [Terminate ws]
  end.

(** The socket after that pass: [isAlive] cleared, or on its way to close. *)
Definition swept (s : Socket) : Socket :=
  if isAlive s then set_isAlive false s else set_readyState CLOSING s.

(** A socket has no binding, or a truthy room and a truthy client id. *)
Definition binding_ok (s : Socket) : Prop :=
  (_room s = VUndefined ∧ _clientId s = VUndefined)
  ∨ (truthy (_room s) = true ∧ truthy (_clientId s) = true).

(** Every room that has an entry, and every member of it, is truthy. *)
Definition registry_ok (rs : gmap Value (gset Value)) : Prop :=
  ∀ r set, rs !! r = Some set →
    truthy r = true ∧ ∀ c, c ∈ set → truthy c = true.

(** [wss.clients] holds each socket once, and those that are not [CLOSED]. *)
Definition clients_ok (st : Server) : Prop :=
  NoDup (clients st)
  ∧ ∀ ws, ws ∈ clients st ↔
          ∃ s, sockets st !! ws = Some s ∧ readyState s ≠ CLOSED.

(** A suspended handler carries truthy values only. *)
Definition continuation_ok (k : Suspended) : Prop :=
  match continuation k with
  | AfterJoin _ room clientId => truthy room = true ∧ truthy clientId = true
  | AfterLeave room => truthy room = true
  | AfterClose room => truthy room = true
  end.

Definition invariant (cfg : Config) : Prop :=
  registry_ok (rooms (server cfg))
  ∧ clients_ok (server cfg)
  ∧ (∀ ws s, sockets (server cfg) !! ws = Some s → binding_ok s)
  ∧ Forall continuation_ok (suspended cfg).

(** ** The game client (utils.js)

    The frames the presence client builds, as the server parses them: strings,
    numbers, booleans and [null] go through [JSON.stringify] and [JSON.parse]
    unchanged, and a field that is [undefined] is read as [undefined] on the
    other side, where it is missing. *)

(** [generateClientId()]: ['c-'] followed by up to eight characters of
    [Math.random().toString(36)], left open here. *)
Definition generateClientId (random : string) : string := "c-" +:+ random.

(** [room.send(ev)]: [Object.assign({}, ev, { clientId })], where an [ev]
    that is falsy or not an object ([None]) is replaced by [{}]. *)
Definition room_send (clientId : string) (ev : option (gmap string Value)) : Data :=
  Object (<["clientId" := VStr clientId]> (default ∅ ev)).

(** The frame sent when the socket opens:
    [{ type: 'join', room: opts.room || 'global', clientId }]. *)
Definition open_join (clientId : string) (opts_room : Value) : Data :=
  Object (list_to_map [("type", VStr "join");
                       ("room", or_else opts_room (VStr "global"));
                       ("clientId", VStr clientId)]).

(** The event types the client sends and server.js has no branch for. *)
Definition unhandled_types : list Value :=
  [VStr "presence_request"; VStr "friend_request"; VStr "friend_accept";
   VStr "moderation_notice"].

(** The two fields of the client's [roomState] that its message handler
    writes; [roomState] starts as [{}]. *)
Record RoomState := mkRoomState {
  roomState_presence_count : option nat;   (* [roomState.presence_count] *)
  roomState_room : Value                   (* [roomState.room] *)
}.

(** The client's ['message'] handler, as far as [roomState] goes: a
    [presence_count] overwrites both fields, anything else leaves them. *)
Definition client_on_message (payload : Payload) (roomState : RoomState) : RoomState :=
  match payload with
  | PresenceCount room count => mkRoomState (Some count) room
  | _ => roomState
  end.

(** The [roomState] of the client behind socket [c] after the [send] calls of
    [effs] reached it, in order. *)
Definition client_receives (c : SocketId) (effs : list Effect) (roomState : RoomState)
  : RoomState :=
  foldl (λ rs e, match e with
                 | Send c' payload =>
                     if decide (c' = c) then client_on_message payload rs else rs
                 | _ => rs
                 end) roomState effs.

(** The room a suspended handler will broadcast the count of. *)
Definition continuation_room (k : Continuation) : Value :=
  match k with
  | AfterJoin _ room _ => room
  | AfterLeave room => room
  | AfterClose room => room
  end.

(** ** Tactics *)

(** Decides [===] between two string literals of the source. *)
Ltac literal_eq :=
  repeat match goal with
  | |- context [strict_eq (VStr ?a) (VStr ?b)] =>
      let v := eval vm_compute in (strict_eq (VStr a) (VStr b)) in
      change (strict_eq (VStr a) (VStr b)) with v
  end.

(** Closes a decidable goal on closed terms by evaluation. *)
Ltac by_evaluation := refine (bool_decide_unpack _ _); vm_compute; exact I.

(** ** Room registry: basic facts *)

Section registry.
Implicit Types (rs : gmap Value (gset Value)) (r c : Value).

Lemma ensureRoom_lookup rs r r' :
  ensureRoom r rs !! r' =
    if decide (r = r') then Some (members rs r) else rs !! r'.
Proof.
  unfold ensureRoom, members.
  destruct (rs !! r) eqn:E; case_decide; subst; simpl;
    rewrite ?lookup_insert_eq ?lookup_insert_ne //.
Qed.

Lemma members_ensureRoom rs r r' :
  members (ensureRoom r rs) r' = members rs r'.
Proof.
  unfold members at 1. rewrite ensureRoom_lookup.
  case_decide; subst; done.
Qed.

Lemma addMember_lookup rs r c r' :
  addMember r c rs !! r' =
    if decide (r = r') then Some ({[c]} ∪ members rs r) else rs !! r'.
Proof.
  unfold addMember. case_decide; subst.
  - rewrite lookup_alter_eq ensureRoom_lookup decide_True //.
  - rewrite lookup_alter_ne // ensureRoom_lookup decide_False //.
Qed.

Lemma removeMember_lookup rs r c r' :
  removeMember r c rs !! r' =
    if decide (r = r') then Some (members rs r ∖ {[c]}) else rs !! r'.
Proof.
  unfold removeMember. case_decide; subst.
  - rewrite lookup_alter_eq ensureRoom_lookup decide_True //.
  - rewrite lookup_alter_ne // ensureRoom_lookup decide_False //.
Qed.

Lemma members_addMember rs r c r' :
  members (addMember r c rs) r' =
    if decide (r = r') then {[c]} ∪ members rs r else members rs r'.
Proof.
  unfold members at 1. rewrite addMember_lookup. by case_decide.
Qed.

Lemma members_removeMember rs r c r' :
  members (removeMember r c rs) r' =
    if decide (r = r') then members rs r ∖ {[c]} else members rs r'.
Proof.
  unfold members at 1. rewrite removeMember_lookup. by case_decide.
Qed.

Lemma count_addMember rs r c :
  count (addMember r c rs) r =
    if decide (c ∈ members rs r) then count rs r else S (count rs r).
Proof.
  unfold count. rewrite members_addMember decide_True //.
  destruct (decide (c ∈ members rs r)) as [Hc|Hc].
  - rewrite subseteq_union_1_L //. by apply singleton_subseteq_l.
  - rewrite size_union ?size_singleton //. by apply disjoint_singleton_l.
Qed.

Lemma count_removeMember rs r c :
  count (removeMember r c rs) r =
    if decide (c ∈ members rs r) then pred (count rs r) else count rs r.
Proof.
  unfold count. rewrite members_removeMember decide_True //.
  destruct (decide (c ∈ members rs r)) as [Hc|Hc].
  - rewrite size_difference; last by apply singleton_subseteq_l.
    rewrite size_singleton. lia.
  - rewrite difference_disjoint_L //. by apply disjoint_singleton_r.
Qed.

End registry.

(** ** Handlers: one equation per branch *)

Section handlers.
Implicit Types (st : Server) (ws c : SocketId) (data : Data).

Lemma get_truthy data k : truthy (get data k) = true → data_truthy data = true.
Proof. by destruct data. Qed.

Lemma on_message_join ws data st :
  get data "type" = VStr "join" →
  truthy (get data "room") = true →
  truthy (get data "clientId") = true →
  on_message ws (Some data) st =
    let st' := set_rooms (addMember (get data "room") (get data "clientId") (rooms st)) st in
    (st', persistCount (get data "room") st',
     suspend st' (AfterJoin ws (get data "room") (get data "clientId"))).
Proof.
  intros Ht Hr Hc. unfold on_message.
  rewrite (get_truthy data "room") // Ht Hr Hc. by literal_eq.
Qed.

Lemma on_message_leave ws data st :
  get data "type" = VStr "leave" →
  truthy (get data "room") = true →
  truthy (get data "clientId") = true →
  on_message ws (Some data) st =
    let st' := set_rooms (removeMember (get data "room") (get data "clientId") (rooms st)) st in
    (st', persistCount (get data "room") st', suspend st' (AfterLeave (get data "room"))).
Proof.
  intros Ht Hr Hc. unfold on_message.
  rewrite (get_truthy data "room") // Ht Hr Hc. by literal_eq.
Qed.

Lemma on_message_chat ws data st :
  get data "type" = VStr "chat" →
  truthy (get data "clientId") = true →
  on_message ws (Some data) st =
    (st,
     relay (roomName st ws data)
       (Chat (get data "clientId") (or_else (get data "username") (VStr "Player"))
             (or_else (get data "message") (VStr "")) (roomName st ws data)) st,
     None).
Proof.
  intros Ht Hc. unfold on_message.
  rewrite (get_truthy data "clientId") // Ht Hc. literal_eq.
  by rewrite /= ?andb_false_r.
Qed.

Lemma on_message_presence_update ws data st :
  get data "type" = VStr "presence_update" →
  truthy (get data "clientId") = true →
  on_message ws (Some data) st =
    (st,
     relay (roomName st ws data)
       (PresenceUpdate (get data "clientId")
          (if truthy (get data "presence") then Relayed (get data "presence")
           else EmptyObject)
          (roomName st ws data)) st,
     None).
Proof.
  intros Ht Hc. unfold on_message.
  rewrite (get_truthy data "clientId") // Ht Hc. literal_eq.
  by rewrite /= ?andb_false_r.
Qed.

(** A [chat] or [presence_update] frame only ever calls [relay], on the
    unchanged state, with a payload that carries the resolved room. *)
Lemma on_message_relay ws data st :
  get data "type" = VStr "chat" ∨ get data "type" = VStr "presence_update" →
  ∃ payload,
    on_message ws (Some data) st =
      (st,
       if truthy (get data "clientId")
       then relay (roomName st ws data) payload st else [],
       None).
Proof.
  intros [Ht|Ht]; destruct (truthy (get data "clientId")) eqn:Hc.
  - eexists. by apply on_message_chat.
  - exists Pong. unfold on_message. rewrite Ht Hc. literal_eq.
    rewrite /= ?andb_false_r. by destruct (data_truthy data).
  - eexists. by apply on_message_presence_update.
  - exists Pong. unfold on_message. rewrite Ht Hc. literal_eq.
    rewrite /= ?andb_false_r. by destruct (data_truthy data).
Qed.

Lemma elem_of_relay rn payload st e :
  e ∈ relay rn payload st ↔
  ∃ c, e = Send c payload ∧ c ∈ clients st ∧ is_open st c = true ∧ room_of st c = rn.
Proof.
  unfold relay. rewrite list_elem_of_fmap. split.
  - intros (c & -> & Hc). apply list_elem_of_filter in Hc as [Hf Hc].
    apply andb_prop in Hf as [Ho Hr].
    apply bool_decide_eq_true in Hr. eauto.
  - intros (c & -> & Hc & Ho & Hr). exists c. split; first done.
    apply list_elem_of_filter. split; last done.
    rewrite Ho /=. by apply bool_decide_eq_true.
Qed.

Lemma elem_of_broadcastRoomCount room st e :
  e ∈ broadcastRoomCount room st ↔
  ∃ c, e = Send c (PresenceCount room (count (rooms st) room))
       ∧ c ∈ clients st ∧ is_open st c = true.
Proof.
  unfold broadcastRoomCount. rewrite list_elem_of_fmap. split.
  - intros (c & -> & Hc). apply list_elem_of_filter in Hc as [Hf Hc]. eauto.
  - intros (c & -> & Hc & Ho). exists c. split; first done.
    by apply list_elem_of_filter.
Qed.

End handlers.

(** ** Scoped fan-out *)

(** C1. Room isolation: when a session sends a [chat] or [presence_update]
    and the room resolved for it is [r1], every socket that [send] is called
    on has [_room === r1]; a socket whose [_room] is another room [r2] gets
    no [send] at all. *)
Theorem room_isolation (st : Server) (ws : SocketId) (data : Data) (r1 : Value) :
  get data "type" = VStr "chat" ∨ get data "type" = VStr "presence_update" →
  roomName st ws data = r1 →
  (∀ c payload,
      Send c payload ∈ (on_message ws (Some data) st).1.2 → room_of st c = r1)
  ∧ (∀ r2 c payload,
      r2 ≠ r1 → room_of st c = r2 →
      Send c payload ∉ (on_message ws (Some data) st).1.2).
Proof.
  intros Ht Hr.
  destruct (on_message_relay ws data st Ht) as [p ->]. simpl.
  assert (∀ c payload,
    Send c payload ∈
      (if truthy (get data "clientId") then relay (roomName st ws data) p st else [])
    → room_of st c = r1) as Honly.
  { intros c payload. destruct (truthy (get data "clientId")).
    - rewrite elem_of_relay. intros (c' & [= <- <-] & _ & _ & Hc). congruence.
    - by intros ?%not_elem_of_nil. }
  split; first done.
  intros r2 c payload Hne Hc Hin. apply Honly in Hin. congruence.
Qed.

(** Scenario B: X, in "lobby", sends a chat; Y, in "lobby", is a recipient and
    Z, in "arena", is not. *)
Lemma room_isolation_witness :
  room_of (server lobby_and_arena) 2 = lobby
  ∧ Send 3 (Chat (VStr "x1") (VStr "Amy") (VStr "hi") lobby)
      ∉ (on_message 1 (Some chat_hi) (server lobby_and_arena)).1.2.
Proof.
  pose proof (room_isolation (server lobby_and_arena) 1 chat_hi lobby
                (or_introl eq_refl) eq_refl) as [Honly Hnever].
  split.
  - apply (Honly 2 (Chat (VStr "x1") (VStr "Amy") (VStr "hi") lobby)).
    by_evaluation.
  - apply (Hnever arena); [discriminate | reflexivity].
Defined.

Lemma on_message_relayed (st : Server) (ws : SocketId) (data : Data) :
  get data "type" = VStr "chat" ∨ get data "type" = VStr "presence_update" →
  truthy (get data "clientId") = true →
  on_message ws (Some data) st =
    (st, relay (roomName st ws data) (relayed st ws data) st, None).
Proof.
  intros [Ht|Ht] Hc; unfold relayed; rewrite Ht; literal_eq.
  - by apply on_message_chat.
  - by apply on_message_presence_update.
Qed.

Lemma roomName_bound (st : Server) (ws : SocketId) (data : Data) :
  truthy (room_of st ws) = true → roomName st ws data = room_of st ws.
Proof. intros H. by rewrite /roomName /or_else H /= H. Qed.

Lemma roomName_unbound (st : Server) (ws : SocketId) (data : Data) :
  truthy (room_of st ws) = false → truthy (get data "room") = false →
  roomName st ws data = VStr "global".
Proof. intros H1 H2. by rewrite /roomName /or_else H1 /= H2. Qed.

(** C10. Sender self-echo: the [send] calls of a [chat] or [presence_update]
    are exactly one per open socket of [wss.clients] whose [_room] is the
    resolved room, in iteration order and with nobody left out; so a sender
    that is open and bound to a room receives its own message back. *)
Theorem sender_self_echo (st : Server) (ws : SocketId) (data : Data) :
  get data "type" = VStr "chat" ∨ get data "type" = VStr "presence_update" →
  truthy (get data "clientId") = true →
  (on_message ws (Some data) st).1.2 =
    ((λ c, Send c (relayed st ws data)) <$>
       filter (λ c, is_open st c && strict_eq (room_of st c) (roomName st ws data) = true)
              (clients st))
  ∧ (ws ∈ clients st → is_open st ws = true → truthy (room_of st ws) = true →
     Send ws (relayed st ws data) ∈ (on_message ws (Some data) st).1.2).
Proof.
  intros Ht Hc. rewrite on_message_relayed //. cbn [fst snd]. split; first done.
  intros Hin Hopen Hbound. apply elem_of_relay. exists ws.
  by rewrite roomName_bound.
Qed.

(** X, bound to "lobby", sends the chat of scenario B and is sent it back. *)
Lemma sender_self_echo_witness :
  Send 1 (Chat (VStr "x1") (VStr "Amy") (VStr "hi") lobby)
    ∈ (on_message 1 (Some chat_hi) (server lobby_and_arena)).1.2.
Proof.
  refine (proj2 (sender_self_echo (server lobby_and_arena) 1 chat_hi
                   (or_introl eq_refl) eq_refl) _ eq_refl eq_refl).
  by_evaluation.
Defined.

(** ** Fallback room resolution *)

(** C8, as the code has it. The room is the sender's [_room] if truthy, else
    the frame's [room] if truthy, else the string "global". A [chat] or
    [presence_update] from a socket with no binding and no [room] field
    therefore goes to the open sockets whose [_room] is the string "global",
    those that joined the room named "global", and to nobody else: a socket
    that never joined has [_room] undefined and is not a recipient. *)
Theorem fallback_room_resolution (st : Server) (ws : SocketId) (data : Data) :
  roomName st ws data =
    (if truthy (room_of st ws) then room_of st ws
     else if truthy (get data "room") then get data "room"
     else VStr "global")
  ∧ (get data "type" = VStr "chat" ∨ get data "type" = VStr "presence_update" →
     truthy (get data "clientId") = true →
     truthy (room_of st ws) = false →
     truthy (get data "room") = false →
     ∀ c payload,
       Send c payload ∈ (on_message ws (Some data) st).1.2 ↔
       payload = relayed st ws data ∧ c ∈ clients st ∧ is_open st c = true
       ∧ room_of st c = VStr "global").
Proof.
  split.
  - rewrite /roomName /or_else. destruct (truthy (room_of st ws)) eqn:E; rewrite /= ?E //.
  - intros Ht Hc Hu Hr c payload.
    rewrite on_message_relayed //. cbn [fst snd].
    rewrite elem_of_relay roomName_unbound //.
    split.
    + by intros (c' & [= <- <-] & ? & ? & ?).
    + intros (-> & ? & ? & ?). by exists c.
Qed.

(** X never joined and sends a chat without [room]: Z, which joined
    "global", is the one recipient. *)
Lemma fallback_room_resolution_witness :
  Send 3 (Chat (VStr "x1") (VStr "Amy") (VStr "hi") global)
    ∈ (on_message 1 (Some chat_hi) (server only_global)).1.2.
Proof.
  apply (proj2 (fallback_room_resolution (server only_global) 1 chat_hi)
           (or_introl eq_refl) eq_refl eq_refl eq_refl).
  repeat split; try reflexivity. by_evaluation.
Defined.

(** C8 as stated fails: X and Y never joined, Z joined "global"; X sends a
    chat without [room]. The only [send] goes to Z, a socket bound to a named
    room, and Y, unbound like the sender, gets nothing. *)
Lemma fallback_room_resolution_counterexample :
  let st := server only_global in
  let effs := (on_message 1 (Some chat_hi) st).1.2 in
  room_of st 1 = VUndefined ∧ get chat_hi "room" = VUndefined
  ∧ room_of st 2 = VUndefined ∧ is_open st 2 = true
  ∧ room_of st 3 = VStr "global"
  ∧ effs = [Send 3 (Chat (VStr "x1") (VStr "Amy") (VStr "hi") (VStr "global"))]
  ∧ ¬ (∀ c payload, Send c payload ∈ effs → room_of st c = VUndefined).
Proof.
  repeat split; try by vm_compute.
  intros H.
  specialize (H 3 (Chat (VStr "x1") (VStr "Amy") (VStr "hi") (VStr "global"))).
  discriminate H. by_evaluation.
Qed.

(** ** Membership *)

(** C9. Membership idempotence: a second [ensureRoom(r).add(c)] leaves the
    registry as the first one made it; [ensureRoom(r).delete(c)] of a client
    that is not in [r] changes no member set; the count is the cardinality of
    the set, so it grows by one exactly when a new member is added and shrinks
    by one exactly when a present member is deleted. *)
Theorem membership_idempotence (rs : gmap Value (gset Value)) (r c : Value) :
  addMember r c (addMember r c rs) = addMember r c rs
  ∧ (c ∉ members rs r → ∀ r', members (removeMember r c rs) r' = members rs r')
  ∧ count rs r = size (members rs r)
  ∧ count (addMember r c rs) r =
      (if decide (c ∈ members rs r) then count rs r else S (count rs r))
  ∧ count (removeMember r c rs) r =
      (if decide (c ∈ members rs r) then pred (count rs r) else count rs r).
Proof.
  split_and!.
  - apply map_eq. intros r'. rewrite !addMember_lookup members_addMember.
    destruct (decide (r = r')) as [->|]; last done.
    by rewrite decide_True // assoc_L union_idemp_L.
  - intros Hc r'. rewrite members_removeMember.
    destruct (decide (r = r')) as [->|]; last done.
    rewrite difference_disjoint_L //. by apply disjoint_singleton_r.
  - done.
  - apply count_addMember.
  - apply count_removeMember.
Qed.

(** Nobody called "q" is in "lobby": deleting it changes nothing there. *)
Lemma membership_idempotence_witness :
  members (removeMember lobby (VStr "q") (rooms (server lobby_and_arena))) lobby
  = members (rooms (server lobby_and_arena)) lobby.
Proof.
  refine (proj1 (proj2 (membership_idempotence
            (rooms (server lobby_and_arena)) lobby (VStr "q"))) _ lobby).
  by_evaluation.
Defined.

(** ** Frames that are dropped *)

Lemma strict_eq_ne (a b : Value) : a ≠ b → strict_eq a b = false.
Proof. intros. by apply bool_decide_eq_false. Qed.

(** C6, as the code has it. A frame that [JSON.parse] rejects, or whose
    [type] is missing, falsy or unknown, or a [join]/[leave] without a truthy
    [room] and [clientId], or a [chat]/[presence_update] without a truthy
    [clientId], leaves the state as it is, calls [send] on nobody and suspends
    nothing. A [chat] needs no [message]. *)
Theorem malformed_input_drop (st : Server) (ws : SocketId) (msg : Frame) :
  dropped msg → on_message ws msg st = (st, [], None).
Proof.
  destruct msg as [data|]; last done.
  unfold dropped, on_message.
  intros [Ht | [Ht | [[Ht Hf] | [Ht Hf]]]].
  - by rewrite Ht orb_true_r.
  - rewrite !strict_eq_ne /=.
    1: by destruct (_ || _).
    all: intros E; apply Ht; rewrite E; by_evaluation.
  - destruct (negb (data_truthy data) || _); first done.
    destruct Ht as [-> | ->], Hf as [-> | ->]; literal_eq;
      by rewrite /= ?andb_false_r.
  - destruct (negb (data_truthy data) || _); first done.
    destruct Ht as [-> | ->]; rewrite Hf; literal_eq;
      by rewrite /= ?andb_false_r.
Qed.

(** Scenario E: a [join] with neither [room] nor [clientId]. *)
Lemma malformed_input_drop_witness :
  on_message 1 (frame [("type", VStr "join")]) (server lobby_and_arena)
  = (server lobby_and_arena, [], None).
Proof.
  apply malformed_input_drop.
  right; right; left. split; [by left | by left].
Defined.

(** C6 as stated fails: X, bound to "lobby", sends a [chat] that has a
    [clientId] but no [message]; it is relayed to X and Y with the empty
    string as message. *)
Lemma malformed_input_drop_counterexample :
  get chat_no_message "message" = VUndefined
  ∧ (on_message 1 (Some chat_no_message) (server lobby_and_arena)).1.2
    = [Send 1 (Chat (VStr "x1") (VStr "Player") (VStr "") (VStr "lobby"));
       Send 2 (Chat (VStr "x1") (VStr "Player") (VStr "") (VStr "lobby"))].
Proof. split; by vm_compute. Qed.

(** ** Join *)

Lemma handle_message_join (st : Server) (ws : SocketId) (data : Data) (o : WriteOutcome) :
  get data "type" = VStr "join" →
  truthy (get data "room") = true →
  truthy (get data "clientId") = true →
  handle_message ws (Some data) o st =
    let room := get data "room" in
    let clientId := get data "clientId" in
    let st' := set_rooms (addMember room clientId (rooms st)) st in
    (set_sockets (alter (bind room clientId) ws (sockets st)) st',
     persistCount room st' ++
     persistCount_settle (mongoColl st) o ++ broadcastRoomCount room st').
Proof.
  intros Ht Hr Hc. unfold handle_message. by rewrite on_message_join.
Qed.

Lemma sends_app (l k : list Effect) : sends (l ++ k) = sends l ++ sends k.
Proof. apply filter_app. Qed.

Lemma sends_persistCount (room : Value) (st : Server) :
  sends (persistCount room st) = [].
Proof. unfold persistCount. by destruct (mongoColl st). Qed.

Lemma sends_persistCount_settle (b : bool) (o : WriteOutcome) :
  sends (persistCount_settle b o) = [].
Proof. by destruct b, o. Qed.

Lemma sends_fmap_Send (payload : Payload) (l : list SocketId) :
  sends ((λ c, Send c payload) <$> l) = (λ c, Send c payload) <$> l.
Proof.
  induction l as [|c l IH]; first done.
  rewrite fmap_cons /sends filter_cons_True //. by rewrite -/(sends _) IH.
Qed.

Lemma sends_broadcastRoomCount (room : Value) (st : Server) :
  sends (broadcastRoomCount room st) = broadcastRoomCount room st.
Proof. apply sends_fmap_Send. Qed.

Lemma room_of_bind (ss : gmap SocketId Socket) (st : Server) (ws : SocketId)
    (room clientId : Value) :
  sockets st = alter (bind room clientId) ws ss →
  is_Some (ss !! ws) →
  room_of st ws = room ∧ clientId_of st ws = clientId.
Proof.
  intros Hss [s Hs]. by rewrite /room_of /clientId_of Hss lookup_alter_eq Hs.
Qed.

(** C4. Join effect: a [join] frame with truthy [room] and [clientId] adds
    [clientId] to the room's set and calls [persistCount] (an upsert of the
    new size when the collection is there); once the [await] is over it calls
    [send] with [presence_count], carrying the size the set then has, on every
    open socket of [wss.clients] whatever its room, and writes [room] and
    [clientId] on the socket. Handled without another event in between, the
    count sent is the size right after the insertion: 1 for a room that was
    empty. *)
Theorem join_effect (st : Server) (ws : SocketId) (data : Data) (o : WriteOutcome) :
  get data "type" = VStr "join" →
  truthy (get data "room") = true →
  truthy (get data "clientId") = true →
  let room := get data "room" in
  let clientId := get data "clientId" in
  let st' := (handle_message ws (Some data) o st).1 in
  let effs := (handle_message ws (Some data) o st).2 in
  rooms st' = addMember room clientId (rooms st)
  ∧ members (rooms st') room = {[clientId]} ∪ members (rooms st) room
  ∧ (mongoColl st = true → UpdateOne room (size (members (rooms st') room)) ∈ effs)
  ∧ (is_Some (sockets st !! ws) →
     room_of st' ws = room ∧ clientId_of st' ws = clientId)
  ∧ sends effs =
      ((λ c, Send c (PresenceCount room (size (members (rooms st') room))))
         <$> open_clients st)
  ∧ (members (rooms st) room = ∅ →
     sends effs = ((λ c, Send c (PresenceCount room 1)) <$> open_clients st))
  ∧ (∃ k, (on_message ws (Some data) st).2 = Some k
     ∧ rooms (on_message ws (Some data) st).1.1 = addMember room clientId (rooms st)
     ∧ ∀ st2 o2,
         sends (resume k o2 st2).2 =
           ((λ c, Send c (PresenceCount room (size (members (rooms st2) room))))
              <$> open_clients st2)
         ∧ (is_Some (sockets st2 !! ws) →
            room_of (resume k o2 st2).1 ws = room
            ∧ clientId_of (resume k o2 st2).1 ws = clientId)).
Proof.
  intros Ht Hr Hc room clientId st' effs.
  subst st' effs. rewrite handle_message_join // on_message_join //. cbn [fst snd].
  fold room clientId.
  assert (sends (persistCount room (set_rooms (addMember room clientId (rooms st)) st)
                 ++ persistCount_settle (mongoColl st) o
                 ++ broadcastRoomCount room
                      (set_rooms (addMember room clientId (rooms st)) st))
          = (λ c, Send c (PresenceCount room
                            (size (members (addMember room clientId (rooms st)) room))))
              <$> open_clients st) as Hsends.
  { by rewrite !sends_app sends_persistCount sends_persistCount_settle
               sends_broadcastRoomCount. }
  split_and!.
  - done.
  - by rewrite /= members_addMember decide_True.
  - intros Hm. rewrite /persistCount /= Hm. apply list_elem_of_here.
  - by apply (room_of_bind (sockets st)).
  - exact Hsends.
  - intros Hempty. rewrite Hsends members_addMember decide_True // Hempty.
    by rewrite right_id_L size_singleton.
  - eexists. split; first reflexivity. split; first done.
    intros st2 o2. rewrite /resume. cbn [fst snd continuation inflight].
    split.
    + by rewrite sends_app sends_persistCount_settle sends_broadcastRoomCount.
    + by apply (room_of_bind (sockets st2)).
Qed.

(** Scenario A: X's join of the empty "lobby" puts count 1 on the wire to
    X, Y and Z. *)
Lemma join_effect_witness :
  sends (handle_message 1 (join_frame lobby (VStr "x1")) Fulfilled (server connected)).2
  = [Send 1 (PresenceCount lobby 1); Send 2 (PresenceCount lobby 1);
     Send 3 (PresenceCount lobby 1)].
Proof.
  refine (proj1 (proj2 (proj2 (proj2 (proj2 (proj2
    (join_effect (server connected) 1
       (Object (list_to_map [("type", VStr "join"); ("room", lobby);
                             ("clientId", VStr "x1")]))
       Fulfilled eq_refl eq_refl eq_refl)))))) _).
  by vm_compute.
Defined.

(** Two joins of "lobby" whose writes are pending at the same time: both
    handlers read the size after both insertions, and count 1 is never sent. *)
Example joins_in_flight :
  (steps connected
     [MongoReady;
      Message 1 (join_frame lobby (VStr "x1"));
      Message 2 (join_frame lobby (VStr "y1"));
      Settle 0 Fulfilled; Settle 0 Rejected]).2
  = [UpdateOne lobby 1; UpdateOne lobby 2;
     Send 1 (PresenceCount lobby 2); Send 2 (PresenceCount lobby 2);
     Send 3 (PresenceCount lobby 2);
     ConsoleWarn;
     Send 1 (PresenceCount lobby 2); Send 2 (PresenceCount lobby 2);
     Send 3 (PresenceCount lobby 2)].
Proof. by vm_compute. Qed.

(** Scenario C: X sends a ping and is the only one to be sent a pong. *)
Example ping_pong :
  on_message 1 (frame [("type", VStr "ping")]) (server lobby_and_arena)
  = (server lobby_and_arena, [Send 1 Pong], None).
Proof. reflexivity. Qed.

(** ** One binding, many memberships *)




(** ** Counts come from the member sets *)

Section counts.
Implicit Types (st : Server) (rs : gmap Value (gset Value)).

Lemma persistCount_count_from_set room st :
  Forall (count_from_set (rooms st)) (persistCount room st).
Proof.
  unfold persistCount. destruct (mongoColl st); repeat constructor.
Qed.

Lemma persistCount_settle_count_from_set rs b o :
  Forall (count_from_set rs) (persistCount_settle b o).
Proof. destruct b, o; repeat constructor. Qed.

Lemma broadcastRoomCount_count_from_set room st :
  Forall (count_from_set (rooms st)) (broadcastRoomCount room st).
Proof.
  apply Forall_forall. intros e (c & -> & _)%elem_of_broadcastRoomCount. done.
Qed.

Lemma relay_count_from_set rs rn payload st :
  (∀ room n, payload ≠ PresenceCount room n) →
  Forall (count_from_set rs) (relay rn payload st).
Proof.
  intros Hp. apply Forall_forall. intros e (c & -> & _)%elem_of_relay.
  destruct payload; try done. by destruct (Hp room count0).
Qed.

Lemma on_message_count_from_set ws msg st :
  Forall (count_from_set (rooms (on_message ws msg st).1.1))
         (on_message ws msg st).1.2.
Proof.
  unfold on_message. destruct msg as [data|]; last by constructor.
  repeat case_match; cbn [fst snd];
    first [ by constructor
          | apply persistCount_count_from_set
          | by apply relay_count_from_set
          | by repeat constructor ].
Qed.

Lemma on_close_count_from_set ws st :
  Forall (count_from_set (rooms (on_close ws st).1.1)) (on_close ws st).1.2.
Proof.
  unfold on_close. case_match; cbn [fst snd]; first apply persistCount_count_from_set.
  by constructor.
Qed.

Lemma resume_count_from_set k o st :
  Forall (count_from_set (rooms (resume k o st).1)) (resume k o st).2.
Proof.
  unfold resume. destruct (continuation k); cbn [fst snd];
    apply Forall_app; split;
    first [ apply persistCount_settle_count_from_set
          | apply (broadcastRoomCount_count_from_set room st) ].
Qed.

Lemma sweep_one_rooms acc ws : rooms (sweep_one acc ws).1 = rooms acc.1.
Proof. destruct acc as [st effs]. rewrite /sweep_one. by repeat case_match. Qed.

Lemma sweep_one_count_from_set rs acc ws :
  Forall (count_from_set rs) acc.2 → Forall (count_from_set rs) (sweep_one acc ws).2.
Proof.
  destruct acc as [st effs]. rewrite /sweep_one. intros H.
  repeat case_match; cbn [snd]; try done; apply Forall_app; by repeat constructor.
Qed.

Lemma foldl_sweep_one_rooms l acc :
  rooms (foldl sweep_one acc l).1 = rooms acc.1.
Proof.
  revert acc. induction l as [|ws l IH]; intros acc; first done.
  by rewrite /= IH sweep_one_rooms.
Qed.

Lemma foldl_sweep_one_count_from_set rs l acc :
  Forall (count_from_set rs) acc.2 →
  Forall (count_from_set rs) (foldl sweep_one acc l).2.
Proof.
  revert acc. induction l as [|ws l IH]; intros acc H; first done.
  by apply IH, sweep_one_count_from_set.
Qed.

End counts.

(** C2. Count authority: whatever the event, each count the transition puts
    in a [presence_count] payload or in an upsert is the size of the room's
    member set in the registry as the transition leaves it; the registry is
    mutated before the count is read and not again by the same transition,
    and the state holds no counter of its own. *)
Theorem count_authority (cfg : Config) (ev : Event) :
  Forall (count_from_set (rooms (server (step cfg ev).1))) (step cfg ev).2.
Proof.
  destruct ev as [ws|ws msg|i o|ws|ws| | |]; rewrite /step; try by constructor.
  - pose proof (on_message_count_from_set ws msg (server cfg)) as H.
    by destruct (on_message ws msg (server cfg)) as [[st effs] k].
  - destruct (suspended cfg !! i) as [k|]; last by constructor.
    pose proof (resume_count_from_set k o (server cfg)) as H.
    by destruct (resume k o (server cfg)) as [st effs].
  - pose proof (on_close_count_from_set ws (closed ws (server cfg))) as H.
    by destruct (on_close ws (closed ws (server cfg))) as [[st effs] k].
  - pose proof (foldl_sweep_one_count_from_set
                  (rooms (sweep (server cfg)).1) (clients (server cfg))
                  (server cfg, []) (Forall_nil_2 _)) as H.
    fold (sweep (server cfg)) in H.
    by destruct (sweep (server cfg)) as [st effs].
Qed.

(** ** Storage failures *)

Section storage.
Implicit Types (st : Server) (b : bool) (o : WriteOutcome).





End storage.


(** ** Disconnect and eviction *)

Section disconnect.
Implicit Types (st : Server) (ws : SocketId) (r c : Value).

Lemma on_close_bound ws st :
  truthy (room_of st ws) = true →
  truthy (clientId_of st ws) = true →
  on_close ws st =
    let st' := set_rooms (removeMember (room_of st ws) (clientId_of st ws) (rooms st)) st in
    (st', persistCount (room_of st ws) st', suspend st' (AfterClose (room_of st ws))).
Proof. intros Hr Hc. by rewrite /on_close Hr Hc. Qed.

Lemma on_close_unbound ws st :
  truthy (room_of st ws) = false ∨ truthy (clientId_of st ws) = false →
  on_close ws st = (st, [], None).
Proof. intros [H|H]; by rewrite /on_close H ?andb_false_r. Qed.

Lemma leave_frame_get r c :
  ∃ data, leave_frame r c = Some data ∧ get data "type" = VStr "leave"
          ∧ get data "room" = r ∧ get data "clientId" = c.
Proof. eexists. split; first reflexivity. by vm_compute. Qed.

Lemma binding_closed ws st :
  room_of (closed ws st) ws = room_of st ws
  ∧ clientId_of (closed ws st) ws = clientId_of st ws
  ∧ rooms (closed ws st) = rooms st.
Proof.
  rewrite /room_of /clientId_of /closed /= lookup_alter_eq.
  by destruct (sockets st !! ws).
Qed.

(** The sweep keeps a dead socket dead and bound as it was: a later pass over
    the same socket calls [terminate] again and flips nothing. *)
Lemma sweep_one_dead acc ws ws' r c :
  dead acc.1 ws r c → dead (sweep_one acc ws').1 ws r c.
Proof.
  destruct acc as [st effs]. intros (s & Hs & Ha & Hr & Hc). simpl in Hs.
  rewrite /sweep_one.
  destruct (sockets st !! ws') as [s'|] eqn:Hs'; last by exists s.
  destruct (decide (ws' = ws)) as [->|Hne].
  - assert (s' = s) as -> by congruence. rewrite Ha /=.
    exists (set_readyState CLOSING s). by rewrite /= lookup_insert_eq.
  - exists s. destruct (negb (isAlive s')); by rewrite /= lookup_insert_ne.
Qed.

Lemma sweep_one_effects acc ws' e : e ∈ acc.2 → e ∈ (sweep_one acc ws').2.
Proof.
  destruct acc as [st effs]. intros He. rewrite /sweep_one.
  repeat case_match; cbn [snd]; try done; apply elem_of_app; by left.
Qed.

Lemma sweep_one_terminate acc ws r c :
  dead acc.1 ws r c → Terminate ws ∈ (sweep_one acc ws).2.
Proof.
  destruct acc as [st effs]. intros (s & Hs & Ha & _). rewrite /sweep_one /= Hs Ha /=.
  apply elem_of_app. right. apply list_elem_of_here.
Qed.

Lemma foldl_sweep_one_dead l acc ws r c :
  dead acc.1 ws r c → dead (foldl sweep_one acc l).1 ws r c.
Proof.
  revert acc. induction l as [|ws' l IH]; intros acc H; first done.
  by apply IH, sweep_one_dead.
Qed.

Lemma foldl_sweep_one_effects l acc e :
  e ∈ acc.2 → e ∈ (foldl sweep_one acc l).2.
Proof.
  revert acc. induction l as [|ws' l IH]; intros acc H; first done.
  by apply IH, sweep_one_effects.
Qed.

Lemma foldl_sweep_one_terminate l acc ws r c :
  ws ∈ l → dead acc.1 ws r c → Terminate ws ∈ (foldl sweep_one acc l).2.
Proof.
  revert acc. induction l as [|ws' l IH]; intros acc Hin Hd.
  - by apply not_elem_of_nil in Hin.
  - apply elem_of_cons in Hin as [<- | Hin].
    + simpl. eapply foldl_sweep_one_effects, sweep_one_terminate. done.
    + simpl. by apply IH, sweep_one_dead.
Qed.

End disconnect.

Lemma handle_close_bound (st : Server) (ws : SocketId) (o : WriteOutcome) :
  truthy (room_of st ws) = true →
  truthy (clientId_of st ws) = true →
  handle_close ws o st =
    let room := room_of st ws in
    let st' := set_rooms (removeMember room (clientId_of st ws) (rooms st)) st in
    (st',
     persistCount room st' ++
     persistCount_settle (mongoColl st) o ++ broadcastRoomCount room st').
Proof. intros Hr Hc. by rewrite /handle_close on_close_bound. Qed.

(** C5, as the code has it. When the ['close'] event of a socket bound to
    [(r, c)] is handled, the effect is that of a [leave] frame for [(r, c)]:
    [c] is deleted from [r]'s set, so the count of [r] goes down by one if [c]
    was still a member and stays as it is otherwise, and [presence_count] with
    the new count is sent to every open socket. A socket with no binding
    closes without touching the registry and without any effect. The health
    ping calls [terminate] on a socket that missed a heartbeat and leaves its
    binding and the registry alone, so the close that follows is handled in
    the same way. *)
Theorem cleanup_on_disconnect (st : Server) (ws : SocketId) (o : WriteOutcome)
    (r c : Value) :
  room_of st ws = r → clientId_of st ws = c →
  let st0 := closed ws st in
  (truthy r = true → truthy c = true →
     handle_close ws o st0 = handle_message ws (leave_frame r c) o st0
     ∧ members (rooms (handle_close ws o st0).1) r = members (rooms st) r ∖ {[c]}
     ∧ (c ∈ members (rooms st) r →
        S (count (rooms (handle_close ws o st0).1) r) = count (rooms st) r)
     ∧ (c ∉ members (rooms st) r →
        count (rooms (handle_close ws o st0).1) r = count (rooms st) r)
     ∧ sends (handle_close ws o st0).2 =
         ((λ c', Send c' (PresenceCount r (count (rooms (handle_close ws o st0).1) r)))
            <$> open_clients st0))
  ∧ (truthy r = false ∨ truthy c = false → on_close ws st0 = (st0, [], None))
  ∧ (ws ∈ clients st → dead st ws r c →
     Terminate ws ∈ (sweep st).2 ∧ dead (sweep st).1 ws r c
     ∧ rooms (sweep st).1 = rooms st).
Proof.
  intros Hr Hc st0.
  destruct (binding_closed ws st) as (Hr0 & Hc0 & Hrooms).
  fold st0 in Hr0, Hc0, Hrooms. rewrite Hr in Hr0. rewrite Hc in Hc0.
  split_and!.
  - intros Tr Tc.
    assert (handle_close ws o st0 =
            (set_rooms (removeMember r c (rooms st0)) st0,
             persistCount r (set_rooms (removeMember r c (rooms st0)) st0) ++
             persistCount_settle (mongoColl st0) o ++
             broadcastRoomCount r (set_rooms (removeMember r c (rooms st0)) st0)))
      as Hclose.
    { rewrite handle_close_bound ?Hr0 ?Hc0 //. }
    split_and!.
    + rewrite Hclose. destruct (leave_frame_get r c) as (data & -> & Ht & Hdr & Hdc).
      rewrite /handle_message on_message_leave ?Hdr ?Hdc //.
    + rewrite Hclose. cbn [fst rooms set_rooms]. change (rooms st0) with (rooms st).
      by rewrite members_removeMember decide_True.
    + intros Hin. rewrite Hclose. cbn [fst rooms set_rooms].
      change (rooms st0) with (rooms st). rewrite count_removeMember decide_True //.
      assert (count (rooms st) r ≠ 0); last lia.
      rewrite /count. intros Hz%size_empty_inv.
      apply (not_elem_of_empty (C:=gset Value) c). by apply Hz.
    + intros Hnin. rewrite Hclose. cbn [fst rooms set_rooms].
      change (rooms st0) with (rooms st). by rewrite count_removeMember decide_False.
    + rewrite {1}Hclose. cbn [snd].
      rewrite !sends_app sends_persistCount sends_persistCount_settle
              sends_broadcastRoomCount.
      by rewrite Hclose.
  - intros H. apply on_close_unbound. by rewrite Hr0 Hc0.
  - intros Hin Hdead. split_and!.
    + by eapply (foldl_sweep_one_terminate _ (st, [])).
    + by apply (foldl_sweep_one_dead _ (st, [])).
    + apply (foldl_sweep_one_rooms _ (st, [])).
Qed.

(** X and Y are in "lobby"; X's socket closes and the count goes from 2
    to 1. *)
Lemma cleanup_on_disconnect_witness :
  S (count (rooms (handle_close 1 Fulfilled (closed 1 (server lobby_and_arena))).1) lobby)
  = count (rooms (server lobby_and_arena)) lobby.
Proof.
  refine (proj1 (proj2 (proj2 (proj1
    (cleanup_on_disconnect (server lobby_and_arena) 1 Fulfilled lobby (VStr "x1")
       eq_refl eq_refl) eq_refl eq_refl))) _).
  by_evaluation.
Defined.

(** Scenario D: X joins "lobby" and its socket closes without a [leave]; Y
    and Z are sent count 0. *)
Example abrupt_disconnect :
  (steps connected
     [Message 1 (join_frame lobby (VStr "x1")); Settle 0 Fulfilled;
      Close 1; Settle 0 Fulfilled]).2
  = [Send 1 (PresenceCount lobby 1); Send 2 (PresenceCount lobby 1);
     Send 3 (PresenceCount lobby 1);
     Send 2 (PresenceCount lobby 0); Send 3 (PresenceCount lobby 0)].
Proof. by vm_compute. Qed.

(** C5 as stated fails: X joined "lobby" and left it with a [leave] frame;
    its socket is still bound to ("lobby", "x1") when it closes, the set of
    "lobby" is already empty, and the count stays 0. *)
Lemma cleanup_on_disconnect_counterexample :
  reachable joined_then_left
  ∧ room_of (server joined_then_left) 1 = lobby
  ∧ clientId_of (server joined_then_left) 1 = VStr "x1"
  ∧ count (rooms (server joined_then_left)) lobby = 0
  ∧ count (rooms (server (steps joined_then_left [Close 1; Settle 0 Fulfilled]).1)) lobby = 0
  ∧ (steps joined_then_left [Close 1; Settle 0 Fulfilled]).2
    = [Send 2 (PresenceCount lobby 0); Send 3 (PresenceCount lobby 0)].
Proof.
  split; first by exists joined_then_left_events.
  split_and!; by vm_compute.
Qed.

(** * Further properties of server.js *)

(** ** Registry algebra *)

Section registry_algebra.
Implicit Types (rs : gmap Value (gset Value)) (r c : Value).

(** [add] then [delete], and [delete] then [add], of the same client in the
    same room: the first leaves the set without [c], the second with it, and
    when [c] was not a member the first gives back every member set. *)
Theorem add_remove_round_trip rs r c :
  members (removeMember r c (addMember r c rs)) r = (members rs r ∖ {[c]})
  ∧ members (addMember r c (removeMember r c rs)) r = ({[c]} ∪ members rs r)
  ∧ c ∈ members (addMember r c rs) r
  ∧ (c ∉ members (removeMember r c rs) r)
  ∧ (c ∉ members rs r →
     ∀ r', members (removeMember r c (addMember r c rs)) r' = members rs r').
Proof.
  split_and!.
  - rewrite members_removeMember decide_True // members_addMember decide_True //.
    set_solver.
  - rewrite members_addMember decide_True // members_removeMember decide_True //.
    apply set_eq. intros x. destruct (decide (x = c)); set_solver.
  - rewrite members_addMember decide_True //. set_solver.
  - rewrite members_removeMember decide_True //. set_solver.
  - intros Hc r'. rewrite members_removeMember.
    destruct (decide (r = r')) as [<-|Hne].
    + rewrite members_addMember decide_True //. set_solver.
    + by rewrite members_addMember decide_False.
Qed.

(** "q" is not in "lobby": adding and deleting it gives "lobby" back. *)
Lemma add_remove_round_trip_witness :
  members (removeMember lobby (VStr "q")
             (addMember lobby (VStr "q") (rooms (server lobby_and_arena)))) lobby
  = members (rooms (server lobby_and_arena)) lobby.
Proof.
  refine (proj2 (proj2 (proj2 (proj2 (add_remove_round_trip
            (rooms (server lobby_and_arena)) lobby (VStr "q"))))) _ lobby).
  by_evaluation.
Defined.

(** Membership changes commute: two insertions, two deletions, and an
    insertion with a deletion of another client or in another room can be
    applied in either order. *)
Theorem registry_commutes rs r c r' c' :
  addMember r c (addMember r' c' rs) = addMember r' c' (addMember r c rs)
  ∧ removeMember r c (removeMember r' c' rs) = removeMember r' c' (removeMember r c rs)
  ∧ ((r, c) ≠ (r', c') →
     addMember r c (removeMember r' c' rs) = removeMember r' c' (addMember r c rs)).
Proof.
  split_and!; [| |intros Hne; assert (r = r' → c ≠ c') by congruence];
    apply map_eq; intros x;
    repeat first
      [ progress rewrite ?addMember_lookup ?removeMember_lookup
                         ?members_addMember ?members_removeMember
      | case_decide; simplify_eq ];
    try done; f_equal; set_solver.
Qed.

(** X's insertion into "lobby" and Z's deletion from "arena", both ways. *)
Lemma registry_commutes_witness :
  addMember lobby (VStr "x1") (removeMember arena (VStr "z1") ∅)
  = removeMember arena (VStr "z1") (addMember lobby (VStr "x1") ∅).
Proof.
  apply (proj2 (proj2 (registry_commutes ∅ lobby (VStr "x1") arena (VStr "z1")))).
  discriminate.
Defined.

End registry_algebra.

(** ** Rooms are never deleted *)

Section rooms_kept.
Implicit Types (st : Server) (r : Value).

Lemma on_message_rooms_kept ws msg st r :
  is_Some (rooms st !! r) → is_Some (rooms (on_message ws msg st).1.1 !! r).
Proof.
  intros Hr. unfold on_message. destruct msg as [data|]; last done.
  repeat case_match; cbn [fst snd rooms set_rooms]; try done;
    rewrite ?addMember_lookup ?removeMember_lookup; by case_decide.
Qed.

Lemma on_close_rooms_kept ws st r :
  is_Some (rooms st !! r) → is_Some (rooms (on_close ws st).1.1 !! r).
Proof.
  intros Hr. unfold on_close.
  case_match; cbn [fst snd rooms set_rooms]; try done.
  rewrite removeMember_lookup; by case_decide.
Qed.

Lemma resume_rooms k o st : rooms (resume k o st).1 = rooms st.
Proof. unfold resume. by destruct (continuation k). Qed.

Lemma step_rooms_kept cfg ev r :
  is_Some (rooms (server cfg) !! r) →
  is_Some (rooms (server (step cfg ev).1) !! r).
Proof.
  intros Hr. destruct ev as [ws|ws msg|i o|ws|ws| | |]; rewrite /step; try done.
  - rewrite /= /on_connection. by destruct (sockets (server cfg) !! ws).
  - pose proof (on_message_rooms_kept ws msg (server cfg) r Hr) as H.
    by destruct (on_message ws msg (server cfg)) as [[st effs] k].
  - destruct (suspended cfg !! i) as [k|]; last done.
    pose proof (resume_rooms k o (server cfg)) as H.
    destruct (resume k o (server cfg)) as [st effs]. simpl in *. by rewrite H.
  - pose proof (on_close_rooms_kept ws (closed ws (server cfg)) r Hr) as H.
    by destruct (on_close ws (closed ws (server cfg))) as [[st effs] k].
  - pose proof (foldl_sweep_one_rooms (clients (server cfg)) (server cfg, [])) as H.
    fold (sweep (server cfg)) in H.
    destruct (sweep (server cfg)) as [st effs]. simpl in *. by rewrite H.
Qed.

End rooms_kept.

(** No event removes a room from the registry: a room that has an entry keeps
    one along every sequence of events, a room emptied by [leave] or by a
    close included. *)
Theorem rooms_never_deleted (cfg : Config) (evs : list Event) :
  dom (rooms (server cfg)) ⊆ dom (rooms (server (steps cfg evs).1)).
Proof.
  revert cfg. induction evs as [|ev evs IH]; intros cfg; first done.
  simpl. pose proof (step_rooms_kept cfg ev) as Hstep.
  destruct (step cfg ev) as [cfg1 e1]. specialize (IH cfg1).
  destruct (steps cfg1 evs) as [cfg2 e2]. simpl in *.
  intros r Hr%elem_of_dom. apply IH, elem_of_dom. auto.
Qed.

(** ** Frames that change nothing, ping *)

(** The message handler, before any [await], never writes a socket field,
    [wss.clients] or [mongoColl]; and a frame whose [type] is neither "join"
    nor "leave" leaves the whole state as it is and suspends nothing. *)
Theorem only_join_and_leave_mutate (st : Server) (ws : SocketId) (msg : Frame) :
  sockets (on_message ws msg st).1.1 = sockets st
  ∧ clients (on_message ws msg st).1.1 = clients st
  ∧ mongoColl (on_message ws msg st).1.1 = mongoColl st
  ∧ (∀ data, msg = Some data →
       get data "type" ≠ VStr "join" → get data "type" ≠ VStr "leave" →
       (on_message ws msg st).1.1 = st ∧ (on_message ws msg st).2 = None).
Proof.
  split_and!.
  1-3: unfold on_message; destruct msg as [data|]; last done;
       by repeat case_match.
  intros data -> Hj Hl. unfold on_message.
  rewrite !(strict_eq_ne _ (VStr "join")) // !(strict_eq_ne _ (VStr "leave")) //=.
  by repeat case_match.
Qed.

(** A chat from X changes nothing in the state. *)
Lemma only_join_and_leave_mutate_witness :
  (on_message 1 (Some chat_hi) (server lobby_and_arena)).1.1 = server lobby_and_arena.
Proof.
  refine (proj1 (proj2 (proj2 (proj2
    (only_join_and_leave_mutate (server lobby_and_arena) 1 (Some chat_hi))))
    chat_hi eq_refl _ _)); discriminate.
Defined.

(** A frame of type "ping" is answered with one [pong], sent to the sender
    alone, whatever else the frame carries and whatever the sender's room or
    [readyState]; nothing is changed and nothing is suspended. *)
Theorem ping_replies_to_sender (cfg : Config) (ws : SocketId) (data : Data) :
  get data "type" = VStr "ping" →
  step cfg (Message ws (Some data)) = (cfg, [Send ws Pong]).
Proof.
  intros Ht. rewrite /step /on_message Ht. literal_eq.
  rewrite (get_truthy data "type") ?Ht //=. by destruct cfg.
Qed.

(** Scenario C, with a [room] and a [clientId] in the frame all the same. *)
Lemma ping_replies_to_sender_witness :
  step lobby_and_arena
    (Message 1 (frame [("type", VStr "ping"); ("room", arena); ("clientId", VStr "z1")]))
  = (lobby_and_arena, [Send 1 Pong]).
Proof. by apply ping_replies_to_sender. Defined.

(** ** Leave *)

Lemma handle_message_leave (st : Server) (ws : SocketId) (data : Data) (o : WriteOutcome) :
  get data "type" = VStr "leave" →
  truthy (get data "room") = true →
  truthy (get data "clientId") = true →
  handle_message ws (Some data) o st =
    let room := get data "room" in
    let st' := set_rooms (removeMember room (get data "clientId") (rooms st)) st in
    (st',
     persistCount room st' ++
     persistCount_settle (mongoColl st) o ++ broadcastRoomCount room st').
Proof.
  intros Ht Hr Hc. unfold handle_message. by rewrite on_message_leave.
Qed.

Lemma join_frame_get (r c : Value) :
  ∃ data, join_frame r c = Some data ∧ get data "type" = VStr "join"
          ∧ get data "room" = r ∧ get data "clientId" = c.
Proof. eexists. split; first reflexivity. by vm_compute. Qed.

(** A [leave] frame with truthy [room] and [clientId], handled without
    interleaving: the room has an entry afterwards, created empty if it had
    none, holding the old members without [clientId]; no other room changes;
    no socket field is written, so the sender keeps the binding of its last
    join; the new size is upserted when the collection is there and sent as
    [presence_count] to every open socket. *)
Theorem leave_effect (st : Server) (ws : SocketId) (data : Data) (o : WriteOutcome) :
  get data "type" = VStr "leave" →
  truthy (get data "room") = true →
  truthy (get data "clientId") = true →
  let room := get data "room" in
  let clientId := get data "clientId" in
  let st' := (handle_message ws (Some data) o st).1 in
  let effs := (handle_message ws (Some data) o st).2 in
  rooms st' !! room = Some (members (rooms st) room ∖ {[clientId]})
  ∧ (∀ r, r ≠ room → rooms st' !! r = rooms st !! r)
  ∧ sockets st' = sockets st
  ∧ clients st' = clients st
  ∧ (mongoColl st = true → UpdateOne room (size (members (rooms st') room)) ∈ effs)
  ∧ sends effs =
      ((λ c, Send c (PresenceCount room (size (members (rooms st') room))))
         <$> open_clients st).
Proof.
  intros Ht Hr Hc room clientId st' effs.
  subst st' effs. rewrite handle_message_leave //. cbn [fst snd].
  fold room clientId. split_and!; try done.
  - by rewrite /= removeMember_lookup decide_True.
  - intros r Hne. by rewrite /= removeMember_lookup decide_False.
  - intros Hm. rewrite /persistCount /= Hm. apply list_elem_of_here.
  - by rewrite !sends_app sends_persistCount sends_persistCount_settle
               sends_broadcastRoomCount.
Qed.

(** Z leaves "lobby", a room it never joined: X, Y and Z are sent the count
    of "lobby" without a change, 2. *)
Lemma leave_effect_witness :
  sends (handle_message 3 (leave_frame lobby (VStr "z1")) Fulfilled
           (server lobby_and_arena)).2
  = [Send 1 (PresenceCount lobby 2); Send 2 (PresenceCount lobby 2);
     Send 3 (PresenceCount lobby 2)].
Proof.
  refine (eq_trans (proj2 (proj2 (proj2 (proj2 (proj2
    (leave_effect (server lobby_and_arena) 3
       (Object (list_to_map [("type", VStr "leave"); ("room", lobby);
                             ("clientId", VStr "z1")]))
       Fulfilled eq_refl eq_refl eq_refl)))))) _).
  by vm_compute.
Defined.

(** After its [leave] a socket is still a recipient of its room: it keeps
    [_room], and any later [chat] or [presence_update] resolved to that room
    is sent to it as before. *)
Theorem leave_keeps_subscription (st : Server) (ws sender : SocketId)
    (data chat : Data) (o : WriteOutcome) :
  get data "type" = VStr "leave" →
  truthy (get data "room") = true →
  truthy (get data "clientId") = true →
  get chat "type" = VStr "chat" ∨ get chat "type" = VStr "presence_update" →
  truthy (get chat "clientId") = true →
  ws ∈ clients st → is_open st ws = true →
  let st' := (handle_message ws (Some data) o st).1 in
  roomName st' sender chat = room_of st ws →
  room_of st' ws = room_of st ws
  ∧ Send ws (relayed st' sender chat) ∈ (on_message sender (Some chat) st').1.2.
Proof.
  intros Ht Hr Hc Hk Hkc Hin Hopen st' Hroom.
  subst st'. revert Hroom. rewrite handle_message_leave //. cbn [fst].
  intros Hroom. split; first done.
  rewrite on_message_relayed //. cbn [fst snd]. apply elem_of_relay.
  exists ws. split_and!; done.
Qed.

(** X leaves "lobby" and Y then sends the chat of scenario B: X is sent it. *)
Lemma leave_keeps_subscription_witness :
  Send 1 (Chat (VStr "x1") (VStr "Amy") (VStr "hi") lobby)
    ∈ (on_message 2 (Some chat_hi)
         (handle_message 1 (leave_frame lobby (VStr "x1")) Fulfilled
            (server lobby_and_arena)).1).1.2.
Proof.
  refine (proj2 (leave_keeps_subscription (server lobby_and_arena) 1 2
    (Object (list_to_map [("type", VStr "leave"); ("room", lobby);
                          ("clientId", VStr "x1")]))
    chat_hi Fulfilled eq_refl eq_refl eq_refl (or_introl eq_refl) eq_refl
    _ eq_refl eq_refl)).
  by_evaluation.
Defined.

(** The client's way of changing room, a [leave] of room [A] followed by a
    [join] of room [B] on the same socket: the client is out of [A] and in
    [B], the socket is bound to [B], and every other room is as before. *)
Theorem leave_then_join_moves (st : Server) (ws : SocketId) (A B c : Value)
    (o1 o2 : WriteOutcome) :
  truthy A = true → truthy B = true → truthy c = true → A ≠ B →
  let st1 := (handle_message ws (leave_frame A c) o1 st).1 in
  let st2 := (handle_message ws (join_frame B c) o2 st1).1 in
  (c ∉ members (rooms st2) A)
  ∧ c ∈ members (rooms st2) B
  ∧ (is_Some (sockets st !! ws) → room_of st2 ws = B ∧ clientId_of st2 ws = c)
  ∧ (∀ r, r ≠ A → r ≠ B → members (rooms st2) r = members (rooms st) r).
Proof.
  intros HA HB Hc Hne st1 st2. subst st1 st2.
  destruct (leave_frame_get A c) as (dl & -> & Htl & Hrl & Hcl).
  destruct (join_frame_get B c) as (dj & -> & Htj & Hrj & Hcj).
  rewrite (handle_message_leave st) ?Hrl ?Hcl //. cbn [fst].
  rewrite handle_message_join ?Hrj ?Hcj //. cbn [fst rooms set_rooms set_sockets].
  split_and!.
  - rewrite members_addMember decide_False // members_removeMember decide_True //.
    set_solver.
  - rewrite members_addMember decide_True //. set_solver.
  - intros Hs. by eapply (room_of_bind (sockets st)).
  - intros r HrA HrB.
    by rewrite members_addMember decide_False // members_removeMember decide_False.
Qed.

(** X, in "lobby", leaves it and joins "arena". *)
Lemma leave_then_join_moves_witness :
  VStr "x1" ∉ members
    (rooms (handle_message 1 (join_frame arena (VStr "x1")) Fulfilled
              (handle_message 1 (leave_frame lobby (VStr "x1")) Fulfilled
                 (server lobby_and_arena)).1).1) lobby.
Proof.
  refine (proj1 (leave_then_join_moves (server lobby_and_arena) 1 lobby arena
                   (VStr "x1") Fulfilled Fulfilled eq_refl eq_refl eq_refl _)).
  discriminate.
Defined.

(** ** What a transition can emit *)

Section effects.
Implicit Types (st : Server) (cfg : Config) (ws : SocketId).

(** The effects of the message handler before its [await] have one of four
    shapes. *)
Lemma on_message_effects ws msg st :
  (on_message ws msg st).1.2 = []
  ∨ (on_message ws msg st).1.2 = [Send ws Pong]
  ∨ (∃ rn p, p ≠ Pong ∧ (on_message ws msg st).1.2 = relay rn p st)
  ∨ (∃ room rs, (on_message ws msg st).1.2 = persistCount room (set_rooms rs st)).
Proof.
  unfold on_message. destruct msg as [data|]; last by left.
  repeat case_match; cbn [fst snd]; eauto 10.
  all: right; right; left; eexists _, _; split; last done; done.
Qed.

Lemma on_close_effects ws st :
  (on_close ws st).1.2 = []
  ∨ (∃ room rs, (on_close ws st).1.2 = persistCount room (set_rooms rs st)).
Proof. unfold on_close. case_match; cbn [fst snd]; eauto. Qed.

Lemma resume_effects (k : Suspended) o st :
  ∃ room, (resume k o st).2 =
            persistCount_settle (inflight k) o ++ broadcastRoomCount room st.
Proof. unfold resume. destruct (continuation k); eauto. Qed.

Lemma sweep_one_Forall (P : Effect → Prop) acc ws :
  (∀ c, P (Ping c)) → (∀ c, P (Terminate c)) →
  Forall P acc.2 → Forall P (sweep_one acc ws).2.
Proof.
  intros HP HT. destruct acc as [st effs]. rewrite /sweep_one. intros H.
  repeat case_match; cbn [snd]; try done; apply Forall_app; by repeat constructor.
Qed.

Lemma sweep_Forall (P : Effect → Prop) st :
  (∀ c, P (Ping c)) → (∀ c, P (Terminate c)) → Forall P (sweep st).2.
Proof.
  intros HP HT. unfold sweep.
  assert (∀ l acc, Forall P acc.2 → Forall P (foldl sweep_one acc l).2) as H.
  { induction l as [|c l IH]; intros acc Hacc; first done.
    by apply IH, sweep_one_Forall. }
  by apply H.
Qed.

(** Every transition's effects, by kind of event. *)
Lemma step_effects cfg ev :
  (step cfg ev).2 = []
  ∨ (∃ ws, (step cfg ev).2 = [Send ws Pong])
  ∨ (∃ rn p, p ≠ Pong ∧ (step cfg ev).2 = relay rn p (server cfg))
  ∨ (∃ room st', mongoColl st' = mongoColl (server cfg)
                 ∧ (step cfg ev).2 = persistCount room st')
  ∨ (∃ i o k room, ev = Settle i o ∧ suspended cfg !! i = Some k
        ∧ (step cfg ev).2 =
            persistCount_settle (inflight k) o
            ++ broadcastRoomCount room (server cfg))
  ∨ Forall (λ e, ∃ c, e = Ping c ∨ e = Terminate c) (step cfg ev).2.
Proof.
  destruct ev as [ws|ws msg|i o|ws|ws| | |]; rewrite /step; try by left.
  - pose proof (on_message_effects ws msg (server cfg)) as H.
    destruct (on_message ws msg (server cfg)) as [[st effs] k]. cbn [fst snd] in *.
    destruct H as [H|[H|[H|(room & rs & H)]]]; eauto 10.
    do 3 right. left. by exists room, (set_rooms rs (server cfg)).
  - destruct (suspended cfg !! i) as [k|] eqn:Hk; last by left.
    destruct (resume_effects k o (server cfg)) as [room H].
    destruct (resume k o (server cfg)) as [st effs]. cbn [fst snd] in *.
    do 4 right. left. by exists i, o, k, room.
  - pose proof (on_close_effects ws (closed ws (server cfg))) as H.
    destruct (on_close ws (closed ws (server cfg))) as [[st effs] k].
    cbn [fst snd] in *. destruct H as [H|(room & rs & H)]; first by left.
    do 3 right. left. by exists room, (set_rooms rs (closed ws (server cfg))).
  - pose proof (sweep_Forall (λ e, ∃ c, e = Ping c ∨ e = Terminate c) (server cfg)) as H.
    destruct (sweep (server cfg)) as [st effs]. cbn [fst snd] in *.
    do 5 right. apply H; eauto.
Qed.

End effects.

(** While [mongoColl] is [null] no event makes the server call [updateOne]:
    [persistCount] returns before it reads anything. *)
Theorem no_collection_no_write (cfg : Config) (ev : Event) (room : Value) (n : nat) :
  mongoColl (server cfg) = false → UpdateOne room n ∉ (step cfg ev).2.
Proof.
  intros Hm Hin.
  destruct (step_effects cfg ev)
    as [H|[(ws & H)|[(rn & p & _ & H)|[(r & st' & Hst' & H)|[(i & o & k & r & _ & _ & H)|H]]]]].
  - rewrite H in Hin. by apply not_elem_of_nil in Hin.
  - rewrite H in Hin. by apply list_elem_of_singleton in Hin.
  - rewrite H in Hin. by apply elem_of_relay in Hin as (c & ? & _).
  - rewrite H /persistCount Hst' Hm in Hin. by apply not_elem_of_nil in Hin.
  - rewrite H in Hin. apply elem_of_app in Hin as [Hin|Hin].
    + destruct (inflight k), o; simpl in Hin;
        try by apply not_elem_of_nil in Hin.
      by apply list_elem_of_singleton in Hin.
    + by apply elem_of_broadcastRoomCount in Hin as (c & ? & _).
  - rewrite Forall_forall in H. by destruct (H _ Hin) as (c & [?|?]).
Qed.

(** The process starts without a collection: X's first join writes nothing. *)
Lemma no_collection_no_write_witness :
  UpdateOne lobby 1 ∉ (step connected (Message 1 (join_frame lobby (VStr "x1")))).2.
Proof. by apply no_collection_no_write. Defined.

(** [console.warn] is called only when a handler resumes after a write that
    was issued and then rejected. *)
Theorem warning_means_rejected_write (cfg : Config) (ev : Event) :
  ConsoleWarn ∈ (step cfg ev).2 →
  ∃ i k, ev = Settle i Rejected ∧ suspended cfg !! i = Some k ∧ inflight k = true.
Proof.
  intros Hin.
  destruct (step_effects cfg ev)
    as [H|[(ws & H)|[(rn & p & _ & H)|[(r & st' & Hst' & H)|[(i & o & k & r & -> & Hk & H)|H]]]]].
  - rewrite H in Hin. by apply not_elem_of_nil in Hin.
  - rewrite H in Hin. by apply list_elem_of_singleton in Hin.
  - rewrite H in Hin. by apply elem_of_relay in Hin as (c & ? & _).
  - rewrite H /persistCount in Hin. destruct (mongoColl st').
    + by apply list_elem_of_singleton in Hin.
    + by apply not_elem_of_nil in Hin.
  - rewrite H in Hin. apply elem_of_app in Hin as [Hin|Hin].
    + destruct (inflight k) eqn:Hf, o; simpl in Hin;
        try by apply not_elem_of_nil in Hin.
      by exists i, k.
    + by apply elem_of_broadcastRoomCount in Hin as (c & ? & _).
  - rewrite Forall_forall in H. by destruct (H _ Hin) as (c & [?|?]).
Qed.

(** With a collection, X's join is suspended on its write; the write is
    rejected and the warning is logged. *)
Lemma warning_means_rejected_write_witness :
  ∃ i k, Settle 0 Rejected = Settle i Rejected
         ∧ suspended (steps connected
                        [MongoReady; Message 1 (join_frame lobby (VStr "x1"))]).1 !! i
           = Some k
         ∧ inflight k = true.
Proof.
  apply (warning_means_rejected_write
           (steps connected [MongoReady; Message 1 (join_frame lobby (VStr "x1"))]).1
           (Settle 0 Rejected)).
  by_evaluation.
Defined.

(** Apart from the [pong] that answers a ping, [send] is only ever called on
    a socket that is in [wss.clients] and [OPEN] when the transition starts. *)
Theorem sends_reach_open_clients (cfg : Config) (ev : Event) (c : SocketId)
    (payload : Payload) :
  Send c payload ∈ (step cfg ev).2 → payload ≠ Pong →
  c ∈ clients (server cfg) ∧ is_open (server cfg) c = true.
Proof.
  intros Hin Hp.
  destruct (step_effects cfg ev)
    as [H|[(ws & H)|[(rn & p & _ & H)|[(r & st' & Hst' & H)|[(i & o & k & r & -> & Hk & H)|H]]]]].
  - rewrite H in Hin. by apply not_elem_of_nil in Hin.
  - rewrite H in Hin. apply list_elem_of_singleton in Hin. congruence.
  - rewrite H in Hin. by apply elem_of_relay in Hin as (c' & [= -> _] & ? & ? & _).
  - rewrite H /persistCount in Hin. destruct (mongoColl st').
    + by apply list_elem_of_singleton in Hin.
    + by apply not_elem_of_nil in Hin.
  - rewrite H in Hin. apply elem_of_app in Hin as [Hin|Hin].
    + destruct (inflight k), o; simpl in Hin;
        try by apply not_elem_of_nil in Hin.
      by apply list_elem_of_singleton in Hin.
    + by apply elem_of_broadcastRoomCount in Hin as (c' & [= -> _] & ? & ?).
  - rewrite Forall_forall in H. by destruct (H _ Hin) as (c' & [?|?]).
Qed.

(** Y is sent X's chat of scenario B: Y is an open client. *)
Lemma sends_reach_open_clients_witness :
  2 ∈ clients (server lobby_and_arena) ∧ is_open (server lobby_and_arena) 2 = true.
Proof.
  apply (sends_reach_open_clients lobby_and_arena (Message 1 (Some chat_hi)) 2
           (Chat (VStr "x1") (VStr "Amy") (VStr "hi") lobby)); last done.
  by_evaluation.
Defined.

(** ** Close *)

(** The socket that closes is not sent the [presence_count] of its own
    departure: it is [CLOSED] and out of [wss.clients] when its handler
    runs. *)
Theorem closing_socket_gets_nothing (st : Server) (ws : SocketId) (o : WriteOutcome)
    (payload : Payload) :
  Send ws payload ∉ (handle_close ws o (closed ws st)).2.
Proof.
  unfold handle_close, on_close.
  destruct (truthy (room_of (closed ws st) ws)
            && truthy (clientId_of (closed ws st) ws));
    last by apply not_elem_of_nil.
  rewrite /run /suspend /resume. cbn [continuation inflight snd].
  intros [Hin|[Hin|Hin]%elem_of_app]%elem_of_app.
  - rewrite /persistCount in Hin. case_match.
    + by apply list_elem_of_singleton in Hin.
    + by apply not_elem_of_nil in Hin.
  - rewrite /persistCount_settle in Hin. repeat case_match;
      try by apply not_elem_of_nil in Hin.
    by apply list_elem_of_singleton in Hin.
  - apply elem_of_broadcastRoomCount in Hin as (c & [= <- _] & Hc & _).
    simpl in Hc. by apply list_elem_of_filter in Hc as [? _].
Qed.

(** A socket that closes while its first join is waiting for the write is not
    bound yet: the close handler finds no room and cleans nothing, and when
    the join resumes the client is a member of the room although its socket
    is gone from [wss.clients]. *)
Theorem close_before_join_resumes (st : Server) (ws : SocketId) (data : Data)
    (o : WriteOutcome) :
  get data "type" = VStr "join" →
  truthy (get data "room") = true →
  truthy (get data "clientId") = true →
  truthy (room_of st ws) = false →
  ∃ k, (on_message ws (Some data) st).2 = Some k
    ∧ let st1 := closed ws (on_message ws (Some data) st).1.1 in
      on_close ws st1 = (st1, [], None)
      ∧ get data "clientId" ∈ members (rooms (resume k o st1).1) (get data "room")
      ∧ ws ∉ clients (resume k o st1).1.
Proof.
  intros Ht Hr Hc Hu. rewrite on_message_join //. cbn [fst snd].
  eexists. split; first reflexivity. cbn zeta. split_and!.
  - apply on_close_unbound. left.
    by destruct (binding_closed ws
      (set_rooms (addMember (get data "room") (get data "clientId") (rooms st)) st))
      as (-> & _).
  - rewrite resume_rooms /= members_addMember decide_True //. set_solver.
  - rewrite /resume. cbn [continuation fst clients set_sockets closed set_clients].
    by intros [? _]%list_elem_of_filter.
Qed.

(** X's join of "lobby" is pending on its write when X's socket closes: Y and
    Z are then sent count 1 for a room whose only member has no socket. *)
Lemma close_before_join_resumes_witness :
  (steps connected
     [MongoReady; Message 1 (join_frame lobby (VStr "x1")); Close 1;
      Settle 0 Fulfilled]).2
  = [UpdateOne lobby 1; Send 2 (PresenceCount lobby 1); Send 3 (PresenceCount lobby 1)]
  ∧ ∃ k, (on_message 1 (join_frame lobby (VStr "x1"))
            (set_mongoColl true (server connected))).2 = Some k
    ∧ let st1 := closed 1 (on_message 1 (join_frame lobby (VStr "x1"))
                             (set_mongoColl true (server connected))).1.1 in
      on_close 1 st1 = (st1, [], None)
      ∧ VStr "x1" ∈ members (rooms (resume k Fulfilled st1).1) lobby
      ∧ 1 ∉ clients (resume k Fulfilled st1).1.
Proof.
  split; first by vm_compute.
  exact (close_before_join_resumes (set_mongoColl true (server connected)) 1
           (Object (list_to_map [("type", VStr "join"); ("room", lobby);
                                 ("clientId", VStr "x1")]))
           Fulfilled eq_refl eq_refl eq_refl eq_refl).
Defined.

(** ** The health ping *)

Section health_ping.
Implicit Types (st : Server) (ws : SocketId) (l : list SocketId).

Lemma sweep_one_eq st effs ws :
  sweep_one (st, effs) ws =
    (set_sockets (alter swept ws (sockets st)) st, effs ++ heartbeat st ws).
Proof.
  rewrite /sweep_one /heartbeat /swept.
  destruct (sockets st !! ws) as [s|] eqn:Hs.
  - assert (∀ f, <[ws := f s]> (sockets st) = alter f ws (sockets st)) as Hins.
    { intros f. apply map_eq. intros x. destruct (decide (x = ws)) as [->|].
      - by rewrite lookup_insert_eq lookup_alter_eq Hs.
      - by rewrite lookup_insert_ne // lookup_alter_ne. }
    destruct (isAlive s) eqn:Ha; simpl; rewrite Hins; do 2 f_equal;
      apply map_eq; intros x; destruct (decide (x = ws)) as [->|];
      rewrite ?lookup_alter_eq ?Hs /= ?Ha // !lookup_alter_ne //.
  - assert (∀ f : Socket → Socket, alter f ws (sockets st) = sockets st) as ->.
    { intros f. apply map_eq. intros x. destruct (decide (x = ws)) as [->|].
      - by rewrite lookup_alter_eq Hs.
      - by rewrite lookup_alter_ne. }
    rewrite app_nil_r. by destruct st.
Qed.

Lemma heartbeat_alter_ne st ws ws' (f : Socket → Socket) :
  ws ≠ ws' →
  heartbeat (set_sockets (alter f ws (sockets st)) st) ws' = heartbeat st ws'.
Proof. intros Hne. by rewrite /heartbeat /= lookup_alter_ne. Qed.

Lemma bind_ext_in (f g : SocketId → list Effect) l :
  (∀ x, x ∈ l → f x = g x) → l ≫= f = l ≫= g.
Proof.
  induction l as [|x l IH]; intros H; first done.
  rewrite !bind_cons H; last by left. rewrite IH //.
  intros y Hy. apply H. by right.
Qed.

Lemma foldl_sweep_one_eq l st effs :
  NoDup l →
  (foldl sweep_one (st, effs) l).2 = effs ++ (l ≫= heartbeat st)
  ∧ rooms (foldl sweep_one (st, effs) l).1 = rooms st
  ∧ clients (foldl sweep_one (st, effs) l).1 = clients st
  ∧ mongoColl (foldl sweep_one (st, effs) l).1 = mongoColl st
  ∧ ∀ ws, sockets (foldl sweep_one (st, effs) l).1 !! ws =
          if decide (ws ∈ l) then swept <$> sockets st !! ws else sockets st !! ws.
Proof.
  revert st effs. induction l as [|x l IH]; intros st effs Hnd.
  - rewrite /= app_nil_r. by split_and!.
  - apply NoDup_cons in Hnd as [Hx Hnd].
    change (foldl sweep_one (st, effs) (x :: l))
      with (foldl sweep_one (sweep_one (st, effs) x) l).
    rewrite sweep_one_eq.
    destruct (IH (set_sockets (alter swept x (sockets st)) st)
                 (effs ++ heartbeat st x) Hnd) as (He & Hr & Hc & Hm & Hs).
    split_and!; try done.
    + rewrite He bind_cons -assoc_L. do 2 f_equal. apply bind_ext_in.
      intros y Hy. apply heartbeat_alter_ne. by intros ->.
    + intros ws. rewrite Hs /=.
      destruct (decide (ws = x)) as [->|Hne].
      * rewrite decide_False // decide_True; last by left.
        by rewrite lookup_alter_eq.
      * rewrite lookup_alter_ne //.
        destruct (decide (ws ∈ l)) as [Hin|Hnin].
        -- rewrite decide_True //. by right.
        -- rewrite decide_False //. by intros [?|?]%elem_of_cons.
Qed.

Lemma isAlive_swept (s : Socket) : isAlive (swept s) = false.
Proof. rewrite /swept. by destruct (isAlive s) eqn:E. Qed.

Lemma binding_swept (s : Socket) :
  _room (swept s) = _room s ∧ _clientId (swept s) = _clientId s.
Proof. rewrite /swept. by destruct (isAlive s). Qed.

Lemma elem_of_heartbeat st ws e :
  e ∈ heartbeat st ws → e = Ping ws ∨ e = Terminate ws.
Proof.
  rewrite /heartbeat. repeat case_match.
  - intros ->%list_elem_of_singleton. by left.
  - intros ->%list_elem_of_singleton. by right.
  - by intros ?%not_elem_of_nil.
Qed.

End health_ping.

(** One pass of the health ping over distinct sockets makes one call per
    socket, in the order of [wss.clients]: [ping] where [isAlive] was set,
    [terminate] where it was not. Afterwards no client socket has [isAlive]
    set; rooms, [wss.clients], bindings and the sockets outside [wss.clients]
    are untouched, and nothing is sent. *)
Theorem sweep_pings_or_terminates (st : Server) :
  NoDup (clients st) →
  (sweep st).2 = clients st ≫= heartbeat st
  ∧ rooms (sweep st).1 = rooms st
  ∧ clients (sweep st).1 = clients st
  ∧ (∀ ws s', sockets (sweep st).1 !! ws = Some s' →
       ∃ s, sockets st !! ws = Some s
            ∧ _room s' = _room s ∧ _clientId s' = _clientId s
            ∧ (ws ∈ clients st → isAlive s' = false)
            ∧ (ws ∉ clients st → s' = s)).
Proof.
  intros Hnd.
  destruct (foldl_sweep_one_eq (clients st) st [] Hnd) as (He & Hr & Hc & _ & Hs).
  fold (sweep st) in He, Hr, Hc, Hs. split_and!; try done.
  intros ws s'. rewrite Hs. destruct (decide (ws ∈ clients st)) as [Hin|Hnin].
  - destruct (sockets st !! ws) as [s|]; last done. intros [= <-].
    exists s. destruct (binding_swept s). split_and!; try done.
    intros _. apply isAlive_swept.
  - intros H. exists s'. by split_and!.
Qed.

(** The first pass over X, Y and Z, all alive: three pings. *)
Lemma sweep_pings_or_terminates_witness :
  (sweep (server lobby_and_arena)).2 = [Ping 1; Ping 2; Ping 3].
Proof.
  refine (eq_trans (proj1 (sweep_pings_or_terminates (server lobby_and_arena) _)) _).
  - by_evaluation.
  - by vm_compute.
Defined.

(** Two passes with no pong in between: the second one calls [terminate] on
    every socket of [wss.clients] and pings none. *)
Theorem second_sweep_terminates (st : Server) :
  NoDup (clients st) →
  (∀ ws, ws ∈ clients st → is_Some (sockets st !! ws)) →
  (sweep (sweep st).1).2 = Terminate <$> clients st.
Proof.
  intros Hnd Hall.
  destruct (foldl_sweep_one_eq (clients st) st [] Hnd) as (_ & _ & Hc & _ & Hs).
  fold (sweep st) in Hc, Hs.
  assert (NoDup (clients (sweep st).1)) as Hnd' by by rewrite Hc.
  destruct (foldl_sweep_one_eq _ (sweep st).1 [] Hnd') as (He & _).
  fold (sweep (sweep st).1) in He. rewrite He Hc /=.
  assert (∀ l, (∀ ws, ws ∈ l → ws ∈ clients st) →
               l ≫= heartbeat (sweep st).1 = Terminate <$> l) as Hl.
  { induction l as [|x l IH]; intros Hsub; first done.
    rewrite bind_cons fmap_cons IH; last (intros; apply Hsub; by right).
    rewrite /heartbeat Hs decide_True; last (apply Hsub; by left).
    destruct (Hall x) as [s ->]; first (apply Hsub; by left).
    by rewrite /= isAlive_swept. }
  by apply Hl.
Qed.

(** X, Y and Z miss a heartbeat: the second pass terminates all three. *)
Lemma second_sweep_terminates_witness :
  (sweep (sweep (server lobby_and_arena)).1).2 = [Terminate 1; Terminate 2; Terminate 3].
Proof.
  refine (eq_trans (second_sweep_terminates (server lobby_and_arena) _ _) _).
  - by_evaluation.
  - intros ws Hws. refine (bool_decide_unpack _ _).
    repeat (apply elem_of_cons in Hws as [->|Hws]; first by vm_compute).
    by apply not_elem_of_nil in Hws.
  - by vm_compute.
Defined.

(** A pong between two passes rescues the socket: whatever [isAlive] was, the
    next pass pings it and does not terminate it. *)
Theorem pong_rescues (st : Server) (ws : SocketId) :
  NoDup (clients st) → ws ∈ clients st → is_Some (sockets st !! ws) →
  Ping ws ∈ (sweep (on_pong ws st)).2
  ∧ Terminate ws ∉ (sweep (on_pong ws st)).2.
Proof.
  intros Hnd Hin [s Hs].
  destruct (foldl_sweep_one_eq (clients st) (on_pong ws st) [] Hnd) as (He & _).
  change (foldl sweep_one (on_pong ws st, []) (clients st))
    with (sweep (on_pong ws st)) in He.
  rewrite He /=.
  assert (heartbeat (on_pong ws st) ws = [Ping ws]) as Hhb.
  { by rewrite /heartbeat /on_pong /= lookup_alter_eq Hs. }
  split.
  - apply list_elem_of_bind. exists ws. split; last done.
    rewrite Hhb. apply list_elem_of_here.
  - intros (x & Hx & _)%list_elem_of_bind.
    destruct (decide (x = ws)) as [->|Hne].
    + rewrite Hhb in Hx. by apply list_elem_of_singleton in Hx.
    + apply elem_of_heartbeat in Hx as [?|?]; congruence.
Qed.

(** X missed a heartbeat, then answers: the next pass pings X. *)
Lemma pong_rescues_witness :
  Ping 1 ∈ (sweep (on_pong 1 (sweep (server lobby_and_arena)).1)).2
  ∧ Terminate 1 ∉ (sweep (on_pong 1 (sweep (server lobby_and_arena)).1)).2.
Proof.
  apply pong_rescues; by_evaluation.
Defined.

(** ** Invariants of the reachable configurations *)

Section invariants.
Implicit Types (st : Server) (cfg : Config) (ws : SocketId)
  (rs : gmap Value (gset Value)).

Lemma registry_ok_members rs r c :
  registry_ok rs → c ∈ members rs r → truthy c = true.
Proof.
  intros Hok. rewrite /members. destruct (rs !! r) as [set|] eqn:Hr; simpl.
  - intros Hc. by apply (Hok r set Hr).
  - by intros ?%not_elem_of_empty.
Qed.

Lemma registry_ok_addMember rs r c :
  registry_ok rs → truthy r = true → truthy c = true →
  registry_ok (addMember r c rs).
Proof.
  intros Hok Hr Hc r' set. rewrite addMember_lookup.
  destruct (decide (r = r')) as [<-|Hne]; last by apply Hok.
  intros [= <-]. split; first done.
  intros x [->%elem_of_singleton|Hx]%elem_of_union; first done.
  by eapply registry_ok_members.
Qed.

Lemma registry_ok_removeMember rs r c :
  registry_ok rs → truthy r = true → registry_ok (removeMember r c rs).
Proof.
  intros Hok Hr r' set. rewrite removeMember_lookup.
  destruct (decide (r = r')) as [<-|Hne]; last by apply Hok.
  intros [= <-]. split; first done.
  intros x [Hx _]%elem_of_difference. by eapply registry_ok_members.
Qed.

(** The message handler either returns with the state it found, or took the
    join branch, or took the leave branch. *)
Lemma on_message_cases ws msg st :
  (∃ effs, on_message ws msg st = (st, effs, None))
  ∨ (∃ r c, truthy r = true ∧ truthy c = true
       ∧ on_message ws msg st =
           (set_rooms (addMember r c (rooms st)) st,
            persistCount r (set_rooms (addMember r c (rooms st)) st),
            suspend (set_rooms (addMember r c (rooms st)) st) (AfterJoin ws r c)))
  ∨ (∃ r c, truthy r = true ∧ truthy c = true
       ∧ on_message ws msg st =
           (set_rooms (removeMember r c (rooms st)) st,
            persistCount r (set_rooms (removeMember r c (rooms st)) st),
            suspend (set_rooms (removeMember r c (rooms st)) st) (AfterLeave r))).
Proof.
  unfold on_message. destruct msg as [data|]; last by left; eauto.
  cbv zeta. destruct (negb (data_truthy data) || _); first by left; eauto.
  destruct (strict_eq (get data "type") (VStr "join") && truthy (get data "room")
            && truthy (get data "clientId")) eqn:Ej.
  { apply andb_prop in Ej as [[_ Hr]%andb_prop Hc]. right; left.
    by exists (get data "room"), (get data "clientId"). }
  destruct (strict_eq (get data "type") (VStr "leave") && truthy (get data "room")
            && truthy (get data "clientId")) eqn:El.
  { apply andb_prop in El as [[_ Hr]%andb_prop Hc]. right; right.
    by exists (get data "room"), (get data "clientId"). }
  left. repeat case_match; by eexists.
Qed.

Lemma on_close_cases ws st :
  on_close ws st = (st, [], None)
  ∨ (∃ r c, truthy r = true
       ∧ on_close ws st =
           (set_rooms (removeMember r c (rooms st)) st,
            persistCount r (set_rooms (removeMember r c (rooms st)) st),
            suspend (set_rooms (removeMember r c (rooms st)) st) (AfterClose r))).
Proof.
  unfold on_close. cbv zeta.
  destruct (truthy (room_of st ws) && truthy (clientId_of st ws)) eqn:E; last by left.
  apply andb_prop in E as [Hr _]. right.
  by exists (room_of st ws), (clientId_of st ws).
Qed.

(** [clients_ok] only looks at [wss.clients] and at which sockets are
    [CLOSED]. *)
Lemma clients_ok_ext st st' :
  clients st' = clients st →
  (∀ ws, (λ s, bool_decide (readyState s = CLOSED)) <$> sockets st' !! ws
         = (λ s, bool_decide (readyState s = CLOSED)) <$> sockets st !! ws) →
  clients_ok st → clients_ok st'.
Proof.
  intros Hc Hs [Hnd Hiff]. split; first by rewrite Hc.
  intros ws. rewrite Hc Hiff. specialize (Hs ws).
  destruct (sockets st !! ws) as [s|], (sockets st' !! ws) as [s'|];
    simplify_eq/=; last done.
  - assert (readyState s' = CLOSED ↔ readyState s = CLOSED) as Hcl.
    { rewrite -(bool_decide_eq_true (readyState s' = CLOSED))
              -(bool_decide_eq_true (readyState s = CLOSED)). by rewrite Hs. }
    split; intros (? & [= <-] & ?); eexists; (split; first done); tauto.
Qed.

Lemma clients_ok_alter st (f : Socket → Socket) ws :
  (∀ s, readyState (f s) = readyState s) →
  clients_ok st → clients_ok (set_sockets (alter f ws (sockets st)) st).
Proof.
  intros Hf. apply clients_ok_ext; first done.
  intros x. rewrite /= lookup_alter. case_decide; subst; last done.
  destruct (sockets st !! x) as [s|]; simpl; by rewrite ?Hf.
Qed.

Lemma bindings_alter st (f : Socket → Socket) ws :
  (∀ s, binding_ok s → binding_ok (f s)) →
  (∀ x s, sockets st !! x = Some s → binding_ok s) →
  ∀ x s, alter f ws (sockets st) !! x = Some s → binding_ok s.
Proof.
  intros Hf Hb x s. rewrite lookup_alter. case_decide; subst; last by apply Hb.
  destruct (sockets st !! x) as [s0|] eqn:Hs; last done.
  intros [= <-]. eauto.
Qed.

Lemma invariant_connection cfg ws :
  invariant cfg → invariant (mkConfig (on_connection ws (server cfg)) (suspended cfg)).
Proof.
  intros (Hreg & [Hnd Hcl] & Hb & Hk). rewrite /on_connection.
  destruct (sockets (server cfg) !! ws) as [s|] eqn:Hs; first done.
  split_and!; try done.
  - split.
    + simpl. apply NoDup_app. split_and!; first done.
      * intros x Hx ->%list_elem_of_singleton.
        apply Hcl in Hx as (s & Hx & _). congruence.
      * apply NoDup_singleton.
    + intros x. rewrite /= elem_of_app Hcl list_elem_of_singleton.
      destruct (decide (x = ws)) as [->|Hne].
      * rewrite lookup_insert_eq. split; last by right.
        intros _. by eexists.
      * rewrite lookup_insert_ne //. split; last by left. by intros [?|?].
  - intros x s. rewrite /= lookup_insert. case_decide; subst; last by apply Hb.
    intros [= <-]. by left.
Qed.

Lemma invariant_closed cfg ws :
  invariant cfg → invariant (mkConfig (closed ws (server cfg)) (suspended cfg)).
Proof.
  intros (Hreg & [Hnd Hcl] & Hb & Hk). split_and!; try done.
  - split; first by apply NoDup_filter.
    intros x. rewrite /= list_elem_of_filter Hcl lookup_alter.
    destruct (decide (ws = x)) as [->|Hne].
    + split; first by intros [? _].
      destruct (sockets (server cfg) !! x); by intros (? & [= <-] & ?).
    + split; first by intros [_ ?]. intros H. split; [congruence|done].
  - apply bindings_alter; last done. by intros s.
Qed.

Lemma invariant_set_rooms cfg rs susp :
  invariant cfg → registry_ok rs → Forall continuation_ok susp →
  invariant (mkConfig (set_rooms rs (server cfg)) susp).
Proof. by intros (_ & Hcl & Hb & _) Hreg Hk. Qed.

Lemma continuation_ok_suspend st k :
  continuation_ok (mkSuspended (mongoColl st) k) ↔
  match k with
  | AfterJoin _ r c => truthy r = true ∧ truthy c = true
  | AfterLeave r | AfterClose r => truthy r = true
  end.
Proof. done. Qed.

Lemma invariant_sweep cfg :
  invariant cfg → invariant (mkConfig (sweep (server cfg)).1 (suspended cfg)).
Proof.
  intros (Hreg & [Hnd Hcl] & Hb & Hk).
  destruct (foldl_sweep_one_eq (clients (server cfg)) (server cfg) [] Hnd)
    as (_ & Hr & Hc & _ & Hs).
  fold (sweep (server cfg)) in Hr, Hc, Hs.
  split_and!; try done.
  - by rewrite /= Hr.
  - apply (clients_ok_ext (server cfg)); [done| |done].
    intros x. rewrite Hs. destruct (decide (x ∈ clients (server cfg))) as [Hin|]; last done.
    apply Hcl in Hin as (s & -> & Hne). rewrite /= /swept.
    destruct (isAlive s); simpl; first done.
    by rewrite !bool_decide_eq_false_2.
  - intros x s'. rewrite /= Hs. case_decide; last by apply Hb.
    destruct (sockets (server cfg) !! x) as [s|] eqn:Hx; last done.
    intros [= <-]. destruct (binding_swept s) as [Hsr Hsc].
    destruct (Hb x s Hx) as [[? ?]|[? ?]]; [left|right]; by rewrite Hsr Hsc.
Qed.

Lemma step_invariant cfg ev : invariant cfg → invariant (step cfg ev).1.
Proof.
  intros Hinv. pose proof Hinv as (Hreg & Hcl & Hb & Hk).
  destruct ev as [ws|ws msg|i o|ws|ws| | |]; rewrite /step.
  - by apply invariant_connection.
  - destruct (on_message_cases ws msg (server cfg))
      as [(effs & ->)|[(r & c & Hr & Hc & ->)|(r & c & Hr & Hc & ->)]];
      cbn [fst snd park suspend].
    + done.
    + apply invariant_set_rooms; first done.
      * by apply registry_ok_addMember.
      * apply Forall_app. split; first done. by repeat constructor.
    + apply invariant_set_rooms; first done.
      * by apply registry_ok_removeMember.
      * apply Forall_app. split; first done. by repeat constructor.
  - destruct (suspended cfg !! i) as [k|] eqn:Hi; last done.
    pose proof (Forall_lookup_1 _ _ _ _ Hk Hi) as Hok.
    rewrite /resume. destruct k as [f [ws r c|r|r]]; cbn [fst snd continuation];
      (split_and!; [done| | |by apply Forall_delete]); try done.
    + by apply clients_ok_alter.
    + apply bindings_alter; last done. intros s _. by right.
  - split_and!; try done.
    + by apply clients_ok_alter.
    + apply bindings_alter; last done. by intros s.
  - pose proof (invariant_closed cfg ws Hinv) as Hinv'.
    destruct (on_close_cases ws (closed ws (server cfg)))
      as [->|(r & c & Hr & ->)]; cbn [fst snd park suspend]; first done.
    pose proof Hinv' as (Hreg' & _).
    apply (invariant_set_rooms (mkConfig (closed ws (server cfg)) (suspended cfg)));
      first done.
    * by apply registry_ok_removeMember.
    * apply Forall_app. split; first done. by repeat constructor.
  - pose proof (invariant_sweep cfg Hinv) as H.
    by destruct (sweep (server cfg)) as [st effs].
  - done.
  - done.
Qed.

Lemma steps_invariant cfg evs : invariant cfg → invariant (steps cfg evs).1.
Proof.
  revert cfg. induction evs as [|ev evs IH]; intros cfg Hinv; first done.
  simpl. pose proof (step_invariant cfg ev Hinv) as Hstep.
  destruct (step cfg ev) as [cfg1 e1]. specialize (IH cfg1 Hstep).
  by destruct (steps cfg1 evs) as [cfg2 e2].
Qed.

Lemma invariant_initial : invariant initial.
Proof.
  split_and!; try done.
  - split; first apply NoDup_nil_2.
    intros ws. split; first by intros ?%not_elem_of_nil.
    by intros (s & ? & _).
Qed.

Lemma reachable_invariant cfg : reachable cfg → invariant cfg.
Proof. intros [evs <-]. apply steps_invariant, invariant_initial. Qed.

End invariants.

(** In every reachable configuration a socket is either unbound, with
    [_room] and [_clientId] both undefined, or bound to a truthy room and a
    truthy client id: the two fields are only written together, by a join
    that checked both, so the close handler of a bound socket always runs its
    cleanup. *)
Theorem reachable_bindings (cfg : Config) (ws : SocketId) (s : Socket) :
  reachable cfg → sockets (server cfg) !! ws = Some s →
  binding_ok s
  ∧ (_room s ≠ VUndefined →
     ∃ k, (on_close ws (closed ws (server cfg))).2 = Some k).
Proof.
  intros Hreach Hs.
  destruct (reachable_invariant cfg Hreach) as (_ & _ & Hb & _).
  pose proof (Hb ws s Hs) as Hok. split; first done.
  intros Hne. destruct Hok as [[? _]|[Hr Hc]]; first done.
  destruct (binding_closed ws (server cfg)) as (Hr' & Hc' & _).
  rewrite on_close_bound.
  - by eexists.
  - by rewrite Hr' /room_of Hs.
  - by rewrite Hc' /clientId_of Hs.
Qed.

(** X, bound to "lobby" as "x1". *)
Lemma reachable_bindings_witness :
  ∃ s, sockets (server lobby_and_arena) !! 1 = Some s ∧ binding_ok s.
Proof.
  exists (mkSocket OPEN true lobby (VStr "x1")).
  assert (sockets (server lobby_and_arena) !! 1
          = Some (mkSocket OPEN true lobby (VStr "x1"))) as Hs by by vm_compute.
  split; first done.
  exact (proj1 (reachable_bindings lobby_and_arena 1 _
                  (ex_intro _ lobby_and_arena_events eq_refl) Hs)).
Defined.

(** In every reachable configuration every room of the registry and every
    member of a room is a truthy value: no frame can create a room called
    [""], [0], [null] or [false], or put such a client id in a room. *)
Theorem reachable_registry_truthy (cfg : Config) (r c : Value) :
  reachable cfg →
  (is_Some (rooms (server cfg) !! r) → truthy r = true)
  ∧ (c ∈ members (rooms (server cfg)) r → truthy c = true).
Proof.
  intros Hreach. destruct (reachable_invariant cfg Hreach) as (Hreg & _).
  split.
  - intros [set Hset]. by destruct (Hreg r set Hset).
  - intros Hc. by apply (registry_ok_members (rooms (server cfg)) r c).
Qed.

(** "lobby" has an entry and "x1" is in it. *)
Lemma reachable_registry_truthy_witness :
  truthy lobby = true ∧ truthy (VStr "x1") = true.
Proof.
  destruct (reachable_registry_truthy lobby_and_arena lobby (VStr "x1")
              (ex_intro _ lobby_and_arena_events eq_refl)) as [Hr Hc].
  split; [apply Hr | apply Hc]; by_evaluation.
Defined.

(** In every reachable configuration [wss.clients] lists each socket once,
    and a socket is listed exactly when it exists and is not [CLOSED]: the
    hypotheses of the properties of the health ping hold there. *)
Theorem reachable_clients (cfg : Config) :
  reachable cfg →
  NoDup (clients (server cfg))
  ∧ (∀ ws, ws ∈ clients (server cfg) ↔
           ∃ s, sockets (server cfg) !! ws = Some s ∧ readyState s ≠ CLOSED).
Proof. intros Hreach. by destruct (reachable_invariant cfg Hreach) as (_ & ? & _). Qed.

(** X, Y and Z, once each. *)
Lemma reachable_clients_witness : NoDup (clients (server lobby_and_arena)).
Proof.
  exact (proj1 (reachable_clients lobby_and_arena
                  (ex_intro _ lobby_and_arena_events eq_refl))).
Defined.

(** ** Which room a frame reaches *)

(** The [room] field of a [chat] or [presence_update] frame is a fallback
    only. A sender that is bound cannot address another room: every recipient
    has the sender's [_room], whatever the frame says. A sender that is not
    bound reaches the room the frame names: every open socket bound to it is
    a recipient. *)
Theorem frame_room_is_a_fallback (st : Server) (ws : SocketId) (data : Data) :
  get data "type" = VStr "chat" ∨ get data "type" = VStr "presence_update" →
  truthy (get data "clientId") = true →
  (truthy (room_of st ws) = true →
   ∀ c payload, Send c payload ∈ (on_message ws (Some data) st).1.2 →
                room_of st c = room_of st ws)
  ∧ (truthy (room_of st ws) = false → truthy (get data "room") = true →
     ∀ c, c ∈ clients st → is_open st c = true → room_of st c = get data "room" →
          Send c (relayed st ws data) ∈ (on_message ws (Some data) st).1.2).
Proof.
  intros Ht Hc. rewrite on_message_relayed //. cbn [fst snd]. split.
  - intros Hb c payload (c' & [= <- _] & _ & _ & Hr)%elem_of_relay.
    by rewrite Hr roomName_bound.
  - intros Hu Hr c Hin Hopen Hroom. apply elem_of_relay. exists c.
    split_and!; try done. by rewrite /roomName /or_else Hu /= Hr.
Qed.

(** X is in "lobby" and puts "arena" in its chat: Z, in "arena", is not a
    recipient. *)
Lemma frame_room_is_a_fallback_witness :
  Send 3 (Chat (VStr "x1") (VStr "Player") (VStr "") lobby)
    ∉ (on_message 1
         (frame [("type", VStr "chat"); ("clientId", VStr "x1"); ("room", arena)])
         (server lobby_and_arena)).1.2.
Proof.
  intros Hin.
  pose proof (proj1 (frame_room_is_a_fallback (server lobby_and_arena) 1
    (Object (list_to_map [("type", VStr "chat"); ("clientId", VStr "x1");
                          ("room", arena)]))
    (or_introl eq_refl) eq_refl) eq_refl 3 _ Hin) as H.
  discriminate H.
Defined.

(** ** Frames built by the game client *)

Section client.
Implicit Types (st : Server) (ws : SocketId) (ev : option (gmap string Value)).

Lemma get_room_send_clientId cid ev : get (room_send cid ev) "clientId" = VStr cid.
Proof. by rewrite /room_send /get lookup_insert_eq. Qed.

Lemma get_room_send_ne cid ev k :
  k ≠ "clientId" → get (room_send cid ev) k = get (Object (default ∅ ev)) k.
Proof. intros Hk. by rewrite /room_send /get lookup_insert_ne. Qed.

Lemma truthy_generateClientId random :
  truthy (VStr (generateClientId random)) = true.
Proof. done. Qed.

End client.

(** Whatever [ev] is, the frame [room.send(ev)] builds carries the client's
    own id, which is truthy, in place of any [clientId] of [ev]; so a [chat]
    or [presence_update] sent through [room.send] is never dropped by the
    server: it is relayed to the open sockets of the resolved room, under the
    client's id. *)
Theorem room_send_is_relayed (st : Server) (ws : SocketId) (random : string)
    (ev : option (gmap string Value)) :
  let data := room_send (generateClientId random) ev in
  get data "clientId" = VStr (generateClientId random)
  ∧ (get (Object (default ∅ ev)) "type" = VStr "chat"
     ∨ get (Object (default ∅ ev)) "type" = VStr "presence_update" →
     on_message ws (Some data) st =
       (st, relay (roomName st ws data) (relayed st ws data) st, None)).
Proof.
  intros data. subst data. split; first apply get_room_send_clientId.
  intros Ht. apply on_message_relayed.
  - by rewrite get_room_send_ne.
  - by rewrite get_room_send_clientId.
Qed.

(** The chat the client sends from its input box, with a forged [clientId]:
    X and Y, in "lobby", are sent it under the sender's own id. *)
Lemma room_send_is_relayed_witness :
  (on_message 1
     (Some (room_send (generateClientId "k3j9x")
              (Some (list_to_map [("type", VStr "chat"); ("message", VStr "hi");
                                  ("username", VStr "Amy"); ("clientId", VStr "y1")]))))
     (server lobby_and_arena)).1.2
  = [Send 1 (Chat (VStr "c-k3j9x") (VStr "Amy") (VStr "hi") lobby);
     Send 2 (Chat (VStr "c-k3j9x") (VStr "Amy") (VStr "hi") lobby)].
Proof.
  refine (eq_trans (f_equal (λ r, r.1.2)
    (proj2 (room_send_is_relayed (server lobby_and_arena) 1 "k3j9x"
      (Some (list_to_map [("type", VStr "chat"); ("message", VStr "hi");
                          ("username", VStr "Amy"); ("clientId", VStr "y1")])))
      (or_introl eq_refl))) _).
  by vm_compute.
Defined.

(** The join the client sends when its socket opens is never dropped: the
    server takes the join branch, for the room of the options if truthy and
    for "global" otherwise, and suspends on [persistCount]. *)
Theorem open_join_is_handled (st : Server) (ws : SocketId) (random : string)
    (opts_room : Value) :
  let room := if truthy opts_room then opts_room else VStr "global" in
  let clientId := VStr (generateClientId random) in
  let st' := set_rooms (addMember room clientId (rooms st)) st in
  on_message ws (Some (open_join (generateClientId random) opts_room)) st =
    (st', persistCount room st', suspend st' (AfterJoin ws room clientId)).
Proof.
  intros room clientId st'.
  assert (get (open_join (generateClientId random) opts_room) "room" = room) as Hr.
  { by rewrite /open_join /get. }
  assert (get (open_join (generateClientId random) opts_room) "clientId" = clientId)
    as Hc by done.
  rewrite on_message_join ?Hr ?Hc //.
  subst room. rewrite /or_else. by destruct (truthy opts_room) eqn:E.
Qed.

(** The frames of the client's friend requests, moderation notices and
    presence requests have a [type] the server has no branch for: they change
    nothing and reach nobody. *)
Theorem unhandled_types_are_dropped (st : Server) (ws : SocketId) (data : Data) :
  get data "type" ∈ unhandled_types →
  on_message ws (Some data) st = (st, [], None).
Proof.
  intros Hin. unfold on_message.
  repeat (apply elem_of_cons in Hin as [->|Hin];
          first (literal_eq; simpl; by destruct (data_truthy data))).
  by apply not_elem_of_nil in Hin.
Qed.

(** The friend request of the client's player list. *)
Lemma unhandled_types_are_dropped_witness :
  on_message 1
    (Some (room_send (generateClientId "k3j9x")
             (Some (list_to_map [("type", VStr "friend_request");
                                 ("targetId", VStr "c-p0q1r2");
                                 ("username", VStr "Amy")]))))
    (server lobby_and_arena)
  = (server lobby_and_arena, [], None).
Proof. apply unhandled_types_are_dropped. by_evaluation. Defined.

(** ** What the client shows *)

Section client_state.
Implicit Types (c : SocketId) (rs : RoomState) (l : list SocketId).

Lemma client_receives_app c effs effs' rs :
  client_receives c (effs ++ effs') rs
  = client_receives c effs' (client_receives c effs rs).
Proof. apply foldl_app. Qed.

Lemma client_receives_settle c b o rs :
  client_receives c (persistCount_settle b o) rs = rs.
Proof. by destruct b, o. Qed.

Lemma client_receives_Send c c' payload effs rs :
  client_receives c (Send c' payload :: effs) rs
  = client_receives c effs
      (if decide (c' = c) then client_on_message payload rs else rs).
Proof. done. Qed.

Lemma client_receives_others c payload l rs :
  c ∉ l → client_receives c ((λ c', Send c' payload) <$> l) rs = rs.
Proof.
  revert rs. induction l as [|x l IH]; intros rs Hc; first done.
  apply not_elem_of_cons in Hc as [Hne Hc].
  rewrite fmap_cons client_receives_Send decide_False; last done. by apply IH.
Qed.

Lemma client_receives_broadcast c room n l rs :
  c ∈ l →
  client_receives c ((λ c', Send c' (PresenceCount room n)) <$> l) rs
  = mkRoomState (Some n) room.
Proof.
  revert rs. induction l as [|x l IH]; intros rs Hc.
  - by apply not_elem_of_nil in Hc.
  - rewrite fmap_cons client_receives_Send.
    destruct (decide (c ∈ l)) as [Hin|Hnin]; first by apply IH.
    apply elem_of_cons in Hc as [->|?]; last done.
    rewrite decide_True // client_receives_others //.
Qed.

End client_state.

(** The count a client shows is that of the room that changed last, not of
    its own room: whenever a join, leave or close handler resumes, the
    [roomState] of every open client, whatever room it is bound to, becomes
    the room of that handler with its current size. *)
Theorem roomState_follows_last_change (st : Server) (k : Suspended) (o : WriteOutcome)
    (c : SocketId) (roomState : RoomState) :
  c ∈ clients st → is_open st c = true →
  client_receives c (resume k o st).2 roomState
  = mkRoomState (Some (size (members (rooms st) (continuation_room (continuation k)))))
                (continuation_room (continuation k)).
Proof.
  intros Hin Hopen.
  assert ((resume k o st).2 =
          persistCount_settle (inflight k) o
          ++ broadcastRoomCount (continuation_room (continuation k)) st) as ->.
  { rewrite /resume. by destruct (continuation k). }
  rewrite client_receives_app client_receives_settle.
  apply client_receives_broadcast. by apply list_elem_of_filter.
Qed.

(** Y is in "lobby"; X joins "arena": Y's client now shows "arena", 2. *)
Lemma roomState_follows_last_change_witness :
  client_receives 2
    (handle_message 1 (join_frame arena (VStr "x1")) Fulfilled (server lobby_and_arena)).2
    (mkRoomState (Some 2) lobby)
  = mkRoomState (Some 2) arena.
Proof.
  refine (eq_trans _ (eq_trans
    (roomState_follows_last_change
       (set_rooms (addMember arena (VStr "x1") (rooms (server lobby_and_arena)))
                  (server lobby_and_arena))
       (mkSuspended false (AfterJoin 1 arena (VStr "x1"))) Fulfilled 2
       (mkRoomState (Some 2) lobby) _ _) _)).
  - by vm_compute.
  - by_evaluation.
  - by vm_compute.
  - by vm_compute.
Defined.
